(** * image-definitions: the import engine, the entity repository and the
      artifact statistics, embedded from [scripts/bootstrap.py] and
      [src/image_definitions/api/*.py].

    Layout: Python values and the builtins the engine calls ([Py]), the rows
    and tables of the relational store ([Store]), the bootstrap engine
    ([Bootstrap]), the REST handlers ([Api]), sample inputs ([Examples]),
    the vocabulary of the statements, then the lemmas and theorems. *)

From Stdlib Require Import ZArith Ascii String DecimalString Lia.
From stdpp Require Import base option list sorting gmap strings countable.

Local Open Scope Z_scope.
Set Warnings "-register-all".
Set Default Proof Using "Type".

(* ===================================================================== *)
(** ** Python values and builtins *)
(* ===================================================================== *)

Module Py.

(** What [yaml.safe_load] hands to the engine, and what a JSON column holds.
    Strings are byte strings holding UTF-8 text.  A float is carried by the
    text Python prints for it: the engine never computes with one.  Mapping
    keys are strings, as is every key the engine looks up. *)
Inductive pyval : Type :=
  | PNone
  | PBool (b : bool)
  | PInt (z : Z)
  | PFloat (text : string)
  | PStr (s : string)
  | PList (items : list pyval)
  | PDict (entries : list (string * pyval)).

(** A [dict] keeps insertion order; iteration follows the list. *)
Abbreviation dict := (list (string * pyval)).

(** The exceptions the modelled code can meet. *)
Inductive exn : Type :=
  | TypeError
  | AttributeError
  | KeyError
  | MultipleResultsFound
  | IntegrityError.

Inductive result (A : Type) : Type :=
  | Ok (a : A)
  | Raise (e : exn).
Arguments Ok {A} a.
Arguments Raise {A} e.

Definition rbind {A B} (r : result A) (f : A → result B) : result B :=
  match r with
  | Ok a => f a
  | Raise e => Raise e
  end.

(** [key in d], [d.get(key)], [d[key] = v] *)
Fixpoint dict_get (d : dict) (key : string) : option pyval :=
  match d with
  | [] => None
  | (k, v) :: rest => if decide (k = key) then Some v else dict_get rest key
  end.

Definition dict_has (d : dict) (key : string) : bool :=
  bool_decide (is_Some (dict_get d key)).

Fixpoint dict_set (d : dict) (key : string) (v : pyval) : dict :=
  match d with
  | [] => [(key, v)]
  | (k, w) :: rest =>
      if decide (k = key) then (k, v) :: rest else (k, w) :: dict_set rest key v
  end.

(** [bool(v)] *)
Definition truthy (v : pyval) : bool :=
  match v with
  | PNone => false
  | PBool b => b
  | PInt z => negb (z =? 0)
  | PFloat t => negb (bool_decide (t = "0.0" ∨ t = "-0.0"))
  | PStr s => negb (bool_decide (s = EmptyString))
  | PList l => negb (bool_decide (l = []))
  | PDict d => negb (bool_decide (d = []))
  end.

(** [v == s] for a string [s] *)
Definition eq_str (v : pyval) (s : string) : bool :=
  match v with
  | PStr t => bool_decide (t = s)
  | _ => false
  end.

Definition is_substring (needle hay : string) : bool :=
  bool_decide (is_Some (String.index 0 needle hay)).

(** [key in v], for a string [key] *)
Definition contains (v : pyval) (key : string) : result bool :=
  match v with
  | PDict d => Ok (dict_has d key)
  | PList l => Ok (existsb (λ x, eq_str x key) l)
  | PStr s => Ok (is_substring key s)
  | PNone | PBool _ | PInt _ | PFloat _ => Raise TypeError
  end.

(** [v[key]], for a string [key] *)
Definition getitem (v : pyval) (key : string) : result pyval :=
  match v with
  | PDict d => match dict_get d key with Some x => Ok x | None => Raise KeyError end
  | _ => Raise TypeError
  end.

(** [v.items()], [v.keys()], [len(v)] *)
Definition items (v : pyval) : result dict :=
  match v with
  | PDict d => Ok d
  | _ => Raise AttributeError
  end.

Definition keys (v : pyval) : result (list pyval) :=
  match v with
  | PDict d => Ok (map (λ kv, PStr kv.1) d)
  | _ => Raise AttributeError
  end.

Definition len (v : pyval) : result nat :=
  match v with
  | PDict d => Ok (length d)
  | PList l => Ok (length l)
  | PStr s => Ok (String.length s)
  | PNone | PBool _ | PInt _ | PFloat _ => Raise TypeError
  end.

Fixpoint chars (s : string) : list pyval :=
  match s with
  | EmptyString => []
  | String c rest => PStr (String c EmptyString) :: chars rest
  end.

(** [for x in v] *)
Definition iter (v : pyval) : result (list pyval) :=
  match v with
  | PList l => Ok l
  | PDict d => Ok (map (λ kv, PStr kv.1) d)
  | PStr s => Ok (chars s)
  | PNone | PBool _ | PInt _ | PFloat _ => Raise TypeError
  end.

(** *** String methods (on ASCII letters) *)

Definition is_upper (c : ascii) : bool :=
  let n := nat_of_ascii c in Nat.leb 65 n && Nat.leb n 90.
Definition is_lower (c : ascii) : bool :=
  let n := nat_of_ascii c in Nat.leb 97 n && Nat.leb n 122.
Definition to_lower (c : ascii) : ascii :=
  if is_upper c then ascii_of_nat (nat_of_ascii c + 32) else c.
Definition to_upper (c : ascii) : ascii :=
  if is_lower c then ascii_of_nat (nat_of_ascii c - 32) else c.

(** [s.lower()] *)
Fixpoint lower (s : string) : string :=
  match s with
  | EmptyString => EmptyString
  | String c rest => String (to_lower c) (lower rest)
  end.

(** [s.replace(a, b)] for single characters *)
Fixpoint replace_char (a b : ascii) (s : string) : string :=
  match s with
  | EmptyString => EmptyString
  | String c rest =>
      String (if decide (c = a) then b else c) (replace_char a b rest)
  end.

(** [s.title()]: a letter that follows a letter is lowered, any other letter
    is raised. *)
Fixpoint title_from (prev_cased : bool) (s : string) : string :=
  match s with
  | EmptyString => EmptyString
  | String c rest =>
      if is_upper c || is_lower c
      then String (if prev_cased then to_lower c else to_upper c)
                  (title_from true rest)
      else String c (title_from false rest)
  end.
Definition title (s : string) : string := title_from false s.

(** *** [str] and [repr] *)

Definition hex_digit (n : nat) : ascii :=
  if Nat.ltb n 10 then ascii_of_nat (48 + n) else ascii_of_nat (87 + n).

Definition escape_char (quote c : ascii) : string :=
  let n := nat_of_ascii c in
  if decide (c = quote) then String "\" (String c EmptyString)
  else if decide (c = "\"%char) then "\\"
  else if Nat.eqb n 9 then "\t"
  else if Nat.eqb n 10 then "\n"
  else if Nat.eqb n 13 then "\r"
  else if Nat.ltb n 32 || Nat.eqb n 127
       then String "\" (String "x" (String (hex_digit (n / 16))
                                    (String (hex_digit (n mod 16)) EmptyString)))
  else String c EmptyString.

Fixpoint escape (quote : ascii) (s : string) : string :=
  match s with
  | EmptyString => EmptyString
  | String c rest => escape_char quote c +:+ escape quote rest
  end.

Fixpoint has_char (a : ascii) (s : string) : bool :=
  match s with
  | EmptyString => false
  | String c rest => bool_decide (c = a) || has_char a rest
  end.

(** [repr(s)]: single quotes unless the text holds one and no double quote. *)
Definition double_quote : ascii := ascii_of_nat 34.
Definition repr_str (s : string) : string :=
  let quote : ascii :=
    if has_char "'" s && negb (has_char double_quote s)
    then double_quote else "'"%char in
  String quote (escape quote s) +:+ String quote EmptyString.

Fixpoint join (sep : string) (l : list string) : string :=
  match l with
  | [] => EmptyString
  | [x] => x
  | x :: rest => x +:+ sep +:+ join sep rest
  end.

Fixpoint repr (v : pyval) : string :=
  match v with
  | PNone => "None"
  | PBool true => "True"
  | PBool false => "False"
  | PInt z => NilZero.string_of_int (Z.to_int z)
  | PFloat t => t
  | PStr s => repr_str s
  | PList l => "[" +:+ join ", " (map repr l) +:+ "]"
  | PDict d =>
      "{" +:+ join ", " (map (λ kv, repr_str kv.1 +:+ ": " +:+ repr kv.2) d) +:+ "}"
  end.

(** [str(v)] *)
Definition str (v : pyval) : string :=
  match v with
  | PStr s => s
  | _ => repr v
  end.

End Py.

(* ===================================================================== *)
(** ** The relational store *)
(* ===================================================================== *)

Module Store.
Import Py.

(** Modelled from the spec: [models/base.py] (the declarative [Base]) is not
    among the sources.  The spec gives every entity a server-assigned [id]
    and the timestamps [created_at] and [updated_at], set on insert and
    refreshed on update, owned by the store.  Each row below starts with
    these three columns; the other columns are those of the model classes. *)

Record ProductGroup : Type := {
  pg_id : Z;
  pg_created_at : Z;
  pg_updated_at : Z;
  pg_name : string;
  pg_description : option string;
}.

Record Product : Type := {
  p_id : Z;
  p_created_at : Z;
  p_updated_at : Z;
  p_name : string;
  p_description : option string;
  p_version : option string;
  p_product_group_id : Z;
}.

Record Architecture : Type := {
  a_id : Z;
  a_created_at : Z;
  a_updated_at : Z;
  a_name : string;
  a_display_name : option string;
  a_description : option string;
  a_product_id : Z;
}.

Record Variant : Type := {
  v_id : Z;
  v_created_at : Z;
  v_updated_at : Z;
  v_name : string;
  v_description : option string;
  v_build_config : option pyval;
  v_architecture_id : Z;
}.

Inductive ArtifactType : Type :=
  | BASE_IMAGE | CLOUD_IMAGE | REGION_COPY | ACCOUNT_SHARE.

Inductive ArtifactStatus : Type :=
  | PENDING | BUILDING | COMPLETED | FAILED | DEPRECATED.

Record Artifact : Type := {
  art_id : Z;
  art_created_at : Z;
  art_updated_at : Z;
  art_name : string;
  art_artifact_type : ArtifactType;
  art_status : ArtifactStatus;
  art_location : option string;
  art_region : option string;
  art_account_id : option string;
  art_size_bytes : option Z;
  art_checksum : option string;
  art_build_id : option string;
  art_build_metadata : option pyval;
  art_variant_id : Z;
}.

(** The five tables in insertion order, and the store's clock: the value
    [func.now()] yields.  No operation below advances the clock. *)
Record store : Type := {
  product_groups : list ProductGroup;
  products : list Product;
  architectures : list Architecture;
  variants : list Variant;
  artifacts : list Artifact;
  now : Z;
}.

Definition empty_store (t : Z) : store :=
  {| product_groups := []; products := []; architectures := [];
     variants := []; artifacts := []; now := t |}.

(** Modelled from the spec: the server-assigned [id] of [models/base.py].
    The store gives the next row of a table an id above every id in use. *)
Definition next_id (ids : list Z) : Z := 1 + foldr Z.max 0 ids.

(** [Result.scalar_one_or_none()] *)
Definition scalar_one_or_none {A : Type} (rows : list A) : result (option A) :=
  match rows with
  | [] => Ok None
  | [row] => Ok (Some row)
  | _ :: _ :: _ => Raise MultipleResultsFound
  end.

(** [session.add(row)] followed by a flush: the row is appended with its id
    and timestamps filled in. *)
Definition add_product_group (db : store) (name : string)
    (description : option string) : ProductGroup * store :=
  let row := {| pg_id := next_id (map pg_id (product_groups db));
                pg_created_at := now db; pg_updated_at := now db;
                pg_name := name; pg_description := description |} in
  (row, {| product_groups := product_groups db ++ [row];
           products := products db; architectures := architectures db;
           variants := variants db; artifacts := artifacts db; now := now db |}).

Definition add_product (db : store) (name : string) (description version : option string)
    (product_group_id : Z) : Product * store :=
  let row := {| p_id := next_id (map p_id (products db));
                p_created_at := now db; p_updated_at := now db;
                p_name := name; p_description := description;
                p_version := version; p_product_group_id := product_group_id |} in
  (row, {| product_groups := product_groups db;
           products := products db ++ [row]; architectures := architectures db;
           variants := variants db; artifacts := artifacts db; now := now db |}).

Definition add_architecture (db : store) (name : string)
    (display_name description : option string) (product_id : Z)
    : Architecture * store :=
  let row := {| a_id := next_id (map a_id (architectures db));
                a_created_at := now db; a_updated_at := now db;
                a_name := name; a_display_name := display_name;
                a_description := description; a_product_id := product_id |} in
  (row, {| product_groups := product_groups db; products := products db;
           architectures := architectures db ++ [row];
           variants := variants db; artifacts := artifacts db; now := now db |}).

Definition add_variant (db : store) (name : string) (description : option string)
    (build_config : option pyval) (architecture_id : Z) : Variant * store :=
  let row := {| v_id := next_id (map v_id (variants db));
                v_created_at := now db; v_updated_at := now db;
                v_name := name; v_description := description;
                v_build_config := build_config;
                v_architecture_id := architecture_id |} in
  (row, {| product_groups := product_groups db; products := products db;
           architectures := architectures db;
           variants := variants db ++ [row]; artifacts := artifacts db; now := now db |}).

End Store.

(* ===================================================================== *)
(** ** The import engine: [scripts/bootstrap.py] *)
(* ===================================================================== *)

Module Bootstrap.
Import Py Store.

(** [self.stats] *)
Record stats : Type := {
  product_groups_created : nat;
  products_created : nat;
  variants_created : nat;
  skipped : nat;
  errors : nat;
}.

Definition zero_stats : stats :=
  {| product_groups_created := 0; products_created := 0;
     variants_created := 0; skipped := 0; errors := 0 |}.

(** What a run threads through its calls: the session's view of the store
    (flushed, not yet committed) and the counters.  Both keep the effects
    made before an exception is raised. *)
Record state : Type := { session : store; counters : stats }.

Definition M (A : Type) : Type := state → result A * state.

Definition ret {A} (a : A) : M A := λ s, (Ok a, s).

Definition bind {A B} (m : M A) (f : A → M B) : M B :=
  λ s, match m s with
       | (Ok a, s') => f a s'
       | (Raise e, s') => (Raise e, s')
       end.

Definition lift {A} (r : result A) : M A := λ s, (r, s).

(** [try: body  except Exception: handler] *)
Definition try_except {A} (body : M A) (handler : M A) : M A :=
  λ s, match body s with
       | (Ok a, s') => (Ok a, s')
       | (Raise _, s') => handler s'
       end.

Declare Scope engine_scope.
Delimit Scope engine_scope with engine.
Notation "'let*' x ':=' c 'in' k" := (bind c (λ x, k))
  (at level 10, x name, c at level 100, k at level 200) : engine_scope.
Notation "c ;; k" := (bind c (λ _, k))
  (at level 100, k at level 200, right associativity) : engine_scope.
Local Open Scope engine_scope.

Definition get_session : M store := λ s, (Ok (session s), s).

Definition with_session {A} (f : store → A * store) : M A :=
  λ s, let (a, db) := f (session s) in
       (Ok a, {| session := db; counters := counters s |}).

Definition update_stats (f : stats → stats) : M unit :=
  λ s, (Ok tt, {| session := session s; counters := f (counters s) |}).

(** [self.stats[...] += 1] *)
Definition count_group_created (c : stats) : stats :=
  {| product_groups_created := S (product_groups_created c);
     products_created := products_created c;
     variants_created := variants_created c;
     skipped := skipped c; errors := errors c |}.
Definition count_product_created (c : stats) : stats :=
  {| product_groups_created := product_groups_created c;
     products_created := S (products_created c);
     variants_created := variants_created c;
     skipped := skipped c; errors := errors c |}.
Definition count_variant_created (c : stats) : stats :=
  {| product_groups_created := product_groups_created c;
     products_created := products_created c;
     variants_created := S (variants_created c);
     skipped := skipped c; errors := errors c |}.
Definition add_skipped (n : nat) (c : stats) : stats :=
  {| product_groups_created := product_groups_created c;
     products_created := products_created c;
     variants_created := variants_created c;
     skipped := (skipped c + n)%nat; errors := errors c |}.
Definition count_error (c : stats) : stats :=
  {| product_groups_created := product_groups_created c;
     products_created := products_created c;
     variants_created := variants_created c;
     skipped := skipped c; errors := S (errors c) |}.

Definition incr_product_groups_created : M unit := update_stats count_group_created.
Definition incr_products_created : M unit := update_stats count_product_created.
Definition incr_variants_created : M unit := update_stats count_variant_created.
Definition incr_skipped : M unit := update_stats (add_skipped 1).
Definition incr_errors : M unit := update_stats count_error.

(** [a or b] on an optional string *)
Definition or_else (a : option string) (b : string) : string :=
  match a with
  | Some s => if decide (s = EmptyString) then b else s
  | None => b
  end.

(** [__init__]: [[item.lower() for item in blacklist or [...]]] *)
Definition init_blacklist (blacklist : option (list string)) : list string :=
  map lower (match blacklist with
             | Some (x :: l) => x :: l
             | Some [] | None => ["CIQ-Kernel"; "sig-cloud-next"]
             end).

Definition create_product_group (name : string) (description : option string)
    : M (option ProductGroup) :=
  try_except
    (let* db := get_session in
     let* existing :=
       lift (scalar_one_or_none
               (filter (λ r, pg_name r = name) (product_groups db))) in
     match existing with
     | Some row => incr_skipped ;; ret (Some row)
     | None =>
         let* pg := with_session (λ db,
           add_product_group db name
             (Some (or_else description
                      ("Product group for " +:+ name +:+ " products")))) in
         incr_product_groups_created ;; ret (Some pg)
     end)
    (incr_errors ;; ret None).

Definition create_product (name : string) (product_group : ProductGroup)
    (version description : option string) : M (option Product) :=
  try_except
    (let* db := get_session in
     let* existing :=
       lift (scalar_one_or_none
               (filter (λ r, p_name r = name
                             ∧ p_product_group_id r = pg_id product_group)
                       (products db))) in
     match existing with
     | Some row => incr_skipped ;; ret (Some row)
     | None =>
         let* product := with_session (λ db,
           add_product db name
             (Some (or_else description ("Product " +:+ name)))
             version (pg_id product_group)) in
         incr_products_created ;; ret (Some product)
     end)
    (incr_errors ;; ret None).

(** The receiver of [arch.replace]: anything but a string has no such
    method. *)
Definition as_str (v : pyval) : result string :=
  match v with
  | PStr s => Ok s
  | _ => Raise AttributeError
  end.

(** Lines 231-238, and the [build_config if build_config else None] of
    line 243. *)
Definition make_build_config (product_data : dict) : result (option pyval) :=
  let build_config : dict := [] in
  let build_config :=
    match dict_get product_data "releasever" with
    | Some v => dict_set build_config "releasever" v
    | None => build_config
    end in
  let build_config :=
    match dict_get product_data "stages" with
    | Some v => dict_set build_config "stages" v
    | None => build_config
    end in
  rbind
    match dict_get product_data "repository_groups" with
    | Some groups =>
        rbind (keys groups) (λ ks,
          Ok (dict_set build_config "repository_groups" (PList ks)))
    | None => Ok build_config
    end
    (λ build_config,
      Ok (if truthy (PDict build_config) then Some (PDict build_config) else None)).

(** The body of the loop of [create_variants] for one [arch].  The stored
    architecture names are strings, so the first query matches an element of
    [arches] only when it is that string. *)
Definition create_variant_for (product : Product) (product_data : dict)
    (arch : pyval) : M (option Variant) :=
  try_except
    (let* db := get_session in
     let* found :=
       lift (scalar_one_or_none
               (filter (λ r, a_product_id r = p_id product
                             ∧ eq_str arch (a_name r) = true)
                       (architectures db))) in
     let* architecture :=
       match found with
       | Some row => ret row
       | None =>
           let* name := lift (as_str arch) in
           with_session (λ db,
             add_architecture db name
               (Some (title (replace_char "_" " " name)))
               (Some (name +:+ " architecture for " +:+ p_name product))
               (p_id product))
       end in
     let* db := get_session in
     let* existing_variant :=
       lift (scalar_one_or_none
               (filter (λ r, v_architecture_id r = a_id architecture)
                       (variants db))) in
     match existing_variant with
     | Some row => incr_skipped ;; ret (Some row)
     | None =>
         let* build_config := lift (make_build_config product_data) in
         let* variant := with_session (λ db,
           add_variant db (p_name product +:+ "-" +:+ str arch)
             (Some (p_name product +:+ " for " +:+ str arch +:+ " architecture"))
             build_config (a_id architecture)) in
         incr_variants_created ;; ret (Some variant)
     end)
    (incr_errors ;; ret None).

Fixpoint create_variants_loop (product : Product) (arches : list pyval)
    (product_data : dict) : M (list Variant) :=
  match arches with
  | [] => ret []
  | arch :: rest =>
      let* v := create_variant_for product product_data arch in
      let* vs := create_variants_loop product rest product_data in
      ret (option_list v ++ vs)
  end.

Definition create_variants (product : Product) (arches : pyval)
    (product_data : dict) : M (list Variant) :=
  let* elements := lift (iter arches) in
  create_variants_loop product elements product_data.

Fixpoint for_each {A} (l : list A) (body : A → M unit) : M unit :=
  match l with
  | [] => ret tt
  | x :: rest => body x ;; for_each rest body
  end.

(** The body of the loop over [group_data["products"].items()]. *)
Definition process_product (pg : ProductGroup) (product_name : string)
    (product_data : pyval) : M unit :=
  match product_data with
  | PDict d =>
      if dict_has d "just_like" then ret tt
      else
        let version := str (default (PStr "1.0") (dict_get d "releasever")) in
        let* product :=
          create_product product_name pg (Some version)
            (Some ("Product " +:+ product_name +:+ " version " +:+ version)) in
        match product with
        | None => ret tt
        | Some product =>
            let arches := default (PList [PStr "x86_64"]) (dict_get d "arches") in
            if truthy arches
            then create_variants product arches d ;; ret tt
            else ret tt
        end
  | _ => ret tt
  end.

(** The body of the loop over [product_groups_data.items()]. *)
Definition process_group (blacklist : list string) (group_name : string)
    (group_data : pyval) : M unit :=
  if bool_decide (lower group_name ∈ blacklist) then ret tt
  else
    let* pg := create_product_group group_name None in
    match pg with
    | None => ret tt
    | Some pg =>
        let* has_products := lift (contains group_data "products") in
        if negb has_products then ret tt
        else
          let* products := lift (getitem group_data "products") in
          let* entries := lift (items products) in
          for_each entries (λ kv, process_product pg kv.1 kv.2)
    end.

Definition process_product_groups (blacklist : list string) (config : pyval)
    : M unit :=
  let* has_groups := lift (contains config "product_groups") in
  if negb has_groups then ret tt
  else
    let* product_groups_data := lift (getitem config "product_groups") in
    let* total := lift (len product_groups_data) in
    let* groups := lift (items product_groups_data) in
    for_each groups (λ kv, process_group blacklist kv.1 kv.2).

(** The session block of [bootstrap] (lines 346-358): process, then commit;
    on an exception roll back and re-raise.  [load_config], the preview and
    the confirmation prompt come before it and do not touch the session; a
    run that one of them ends never opens it.  Returns the outcome, the
    committed store and the counters. *)
Definition bootstrap (blacklist : list string) (config : pyval) (db : store)
    : result unit * store * stats :=
  match process_product_groups blacklist config
          {| session := db; counters := zero_stats |} with
  | (Ok _, s) => (Ok tt, session s, counters s)
  | (Raise e, s) => (Raise e, db, counters s)
  end.

(** *** The preview: [show_preview] (lines 78-119) *)

Notation "'let?' x ':=' c 'in' k" := (rbind c (λ x, k))
  (at level 10, x name, c at level 100, k at level 200) : engine_scope.


(** [sorted(set(l))] on strings *)
Fixpoint insert_sorted (x : string) (l : list string) : list string :=
  match l with
  | [] => [x]
  | y :: rest =>
      match String.compare x y with
      | Lt => x :: y :: rest
      | Eq => y :: rest
      | Gt => y :: insert_sorted x rest
      end
  end.
Definition sorted_set (l : list string) : list string :=
  foldr insert_sorted [] l.




(** [", ".join(sorted(a_set)) if a_set else "N/A"] *)
Definition column (a_set : list string) : string :=
  match a_set with
  | [] => "N/A"
  | _ :: _ => join ", " (sorted_set a_set)
  end.







End Bootstrap.

(* ===================================================================== *)
(** ** The REST handlers: [src/image_definitions/api/*.py] *)
(* ===================================================================== *)

Module Api.
Import Py Store.

(** What a handler answers: a body with its status code, an
    [HTTPException], the 422 of a query parameter outside its declared
    range, or the 500 of an exception nothing catches. *)
Inductive response (A : Type) : Type :=
  | Success (status_code : Z) (body : A)
  | HTTPException (status_code : Z) (detail : string)
  | RequestValidationError
  | ServerError (e : exn).
Arguments Success {A} status_code body.
Arguments HTTPException {A} status_code detail.
Arguments RequestValidationError {A}.
Arguments ServerError {A} e.

(** [skip: Query(0, ge=0)], [limit: Query(100, ge=1, le=1000)] *)
Definition valid_page (skip limit : Z) : bool :=
  (0 <=? skip) && (1 <=? limit) && (limit <=? 1000).

(** [order_by(created_at.desc())]; rows with equal stamps keep table order. *)
Fixpoint insert_desc {A} (key : A → Z) (x : A) (l : list A) : list A :=
  match l with
  | [] => [x]
  | y :: rest =>
      if key y <=? key x then x :: y :: rest else y :: insert_desc key x rest
  end.
Definition order_by_desc {A} (key : A → Z) (l : list A) : list A :=
  foldr (insert_desc key) [] l.

Definition page {A} (skip limit : Z) (key : A → Z) (rows : list A) : list A :=
  take (Z.to_nat limit) (drop (Z.to_nat skip) (order_by_desc key rows)).

(** [if parent_id:] on an optional integer query parameter *)
Definition id_given (parent_id : option Z) : bool :=
  match parent_id with
  | Some i => truthy (PInt i)
  | None => false
  end.

(** [query.where(column == value)] when the parameter is truthy *)
Definition where_id {A} (column : A → Z) (value : option Z) (rows : list A)
    : list A :=
  if id_given value
  then filter (λ r, Some (column r) = value) rows
  else rows.


Definition list_products (skip limit : Z) (product_group_id : option Z)
    (db : store) : response (list Product) :=
  if negb (valid_page skip limit) then RequestValidationError
  else Success 200 (page skip limit p_created_at
                      (where_id p_product_group_id product_group_id (products db))).



#[global] Instance ArtifactType_eq_dec : EqDecision ArtifactType.
Proof. solve_decision. Defined.
#[global] Instance ArtifactStatus_eq_dec : EqDecision ArtifactStatus.
Proof. solve_decision. Defined.


(** [select(T).where(T.id == id)] then [scalar_one_or_none()] *)
Definition by_id {A} (column : A → Z) (id : Z) (rows : list A)
    : result (option A) :=
  scalar_one_or_none (filter (λ r, column r = id) rows).

Definition get_or_404 {A} (found : result (option A)) (detail : string)
    : response A :=
  match found with
  | Ok (Some row) => Success 200 row
  | Ok None => HTTPException 404 detail
  | Raise e => ServerError e
  end.

Definition get_product_group (product_group_id : Z) (db : store)
    : response ProductGroup :=
  get_or_404 (by_id pg_id product_group_id (product_groups db))
    "Product group not found".
Definition get_product (product_id : Z) (db : store) : response Product :=
  get_or_404 (by_id p_id product_id (products db)) "Product not found".
Definition get_architecture (architecture_id : Z) (db : store)
    : response Architecture :=
  get_or_404 (by_id a_id architecture_id (architectures db))
    "Architecture not found".
Definition get_variant (variant_id : Z) (db : store) : response Variant :=
  get_or_404 (by_id v_id variant_id (variants db)) "Variant not found".
Definition get_artifact (artifact_id : Z) (db : store) : response Artifact :=
  get_or_404 (by_id art_id artifact_id (artifacts db)) "Artifact not found".

(** The request bodies of the create handlers ([schemas/*.py]). *)
Record ProductGroupCreate : Type := {
  pgc_name : string;
  pgc_description : option string;
}.
Record ProductCreate : Type := {
  pc_name : string;
  pc_description : option string;
  pc_version : option string;
  pc_product_group_id : Z;
}.
Record ArchitectureCreate : Type := {
  ac_name : string;
  ac_display_name : option string;
  ac_description : option string;
  ac_product_id : Z;
}.
Record VariantCreate : Type := {
  vc_name : string;
  vc_description : option string;
  vc_build_config : option pyval;
  vc_architecture_id : Z;
}.
Record ArtifactCreate : Type := {
  artc_name : string;
  artc_artifact_type : ArtifactType;
  artc_location : option string;
  artc_region : option string;
  artc_account_id : option string;
  artc_size_bytes : option Z;
  artc_checksum : option string;
  artc_build_id : option string;
  artc_build_metadata : option pyval;
  artc_variant_id : Z;
  artc_status : ArtifactStatus;
}.

(** [ProductGroupUpdate] after [model_dump(exclude_unset=True)]: a field is
    absent ([None]), or present with [null] or a value. *)
Record ProductGroupUpdate : Type := {
  pgu_name : option (option string);
  pgu_description : option (option string);
}.

Definition add_artifact (db : store) (a : ArtifactCreate) : Artifact * store :=
  let row := {| art_id := next_id (map art_id (artifacts db));
                art_created_at := now db; art_updated_at := now db;
                art_name := artc_name a;
                art_artifact_type := artc_artifact_type a;
                art_status := artc_status a;
                art_location := artc_location a;
                art_region := artc_region a;
                art_account_id := artc_account_id a;
                art_size_bytes := artc_size_bytes a;
                art_checksum := artc_checksum a;
                art_build_id := artc_build_id a;
                art_build_metadata := artc_build_metadata a;
                art_variant_id := artc_variant_id a |} in
  (row, {| product_groups := product_groups db; products := products db;
           architectures := architectures db; variants := variants db;
           artifacts := artifacts db ++ [row]; now := now db |}).

(** A create handler after its check: the row is added, committed and
    returned with 201. *)
Definition created {A} (added : A * store) : response A * store :=
  (Success 201 added.1, added.2).

(** The parent check shared by the four child entities: 400 with [detail]
    when no parent row has the id. *)
Definition with_parent {P A} (parent : result (option P)) (detail : string)
    (db : store) (add : A * store) : response A * store :=
  match parent with
  | Raise e => (ServerError e, db)
  | Ok None => (HTTPException 400 detail, db)
  | Ok (Some _) => created add
  end.

Definition create_product_group (product_group : ProductGroupCreate)
    (db : store) : response ProductGroup * store :=
  match scalar_one_or_none
          (filter (λ r, pg_name r = pgc_name product_group) (product_groups db)) with
  | Raise e => (ServerError e, db)
  | Ok (Some _) =>
      (HTTPException 400
         ("Product group with name '" +:+ pgc_name product_group
            +:+ "' already exists"), db)
  | Ok None =>
      created (add_product_group db (pgc_name product_group)
                 (pgc_description product_group))
  end.

Definition create_product (product : ProductCreate) (db : store)
    : response Product * store :=
  with_parent (by_id pg_id (pc_product_group_id product) (product_groups db))
    "Product group not found" db
    (add_product db (pc_name product) (pc_description product)
       (pc_version product) (pc_product_group_id product)).

Definition create_architecture (architecture : ArchitectureCreate) (db : store)
    : response Architecture * store :=
  with_parent (by_id p_id (ac_product_id architecture) (products db))
    "Product not found" db
    (add_architecture db (ac_name architecture) (ac_display_name architecture)
       (ac_description architecture) (ac_product_id architecture)).

Definition create_variant (variant : VariantCreate) (db : store)
    : response Variant * store :=
  with_parent (by_id a_id (vc_architecture_id variant) (architectures db))
    "Architecture not found" db
    (add_variant db (vc_name variant) (vc_description variant)
       (vc_build_config variant) (vc_architecture_id variant)).

Definition create_artifact (artifact : ArtifactCreate) (db : store)
    : response Artifact * store :=
  with_parent (by_id v_id (artc_variant_id artifact) (variants db))
    "Variant not found" db (add_artifact db artifact).

(** [setattr] of the supplied fields on the row, and the refreshed stamp. *)
Definition patch_product_group (upd : ProductGroupUpdate) (t : Z)
    (name : string) (row : ProductGroup) : ProductGroup :=
  {| pg_id := pg_id row; pg_created_at := pg_created_at row;
     pg_updated_at := t; pg_name := name;
     pg_description := default (pg_description row) (pgu_description upd) |}.

Definition replace_product_group (db : store) (row : ProductGroup) : store :=
  {| product_groups :=
       map (λ r, if decide (pg_id r = pg_id row) then row else r)
           (product_groups db);
     products := products db; architectures := architectures db;
     variants := variants db; artifacts := artifacts db; now := now db |}.

(** The name check of [update_product_group] (lines 66-72): made only when
    a name is supplied that differs from the row's.  A supplied [null]
    equals no stored name. *)
Definition name_conflict (upd : ProductGroupUpdate) (row : ProductGroup)
    (db : store) : result (option ProductGroup) :=
  match pgu_name upd with
  | Some new_name =>
      if decide (new_name ≠ Some (pg_name row))
      then scalar_one_or_none
             (filter (λ r, Some (pg_name r) = new_name) (product_groups db))
      else Ok None
  | None => Ok None
  end.

Definition update_product_group (product_group_id : Z)
    (product_group_update : ProductGroupUpdate) (db : store)
    : response ProductGroup * store :=
  match by_id pg_id product_group_id (product_groups db) with
  | Raise e => (ServerError e, db)
  | Ok None => (HTTPException 404 "Product group not found", db)
  | Ok (Some db_product_group) =>
      match name_conflict product_group_update db_product_group db with
      | Raise e => (ServerError e, db)
      | Ok (Some _) =>
          (HTTPException 400
             ("Product group with name '"
                +:+ default EmptyString (mjoin (pgu_name product_group_update))
                +:+ "' already exists"), db)
      | Ok None =>
          match default (Some (pg_name db_product_group))
                  (pgu_name product_group_update) with
          | None => (ServerError IntegrityError, db)
          | Some name =>
              let row := patch_product_group product_group_update (now db)
                           name db_product_group in
              (Success 200 row, replace_product_group db row)
          end
      end
  end.

(** *** Statistics *)

Definition ArtifactType_to_nat (t : ArtifactType) : nat :=
  match t with
  | BASE_IMAGE => 0 | CLOUD_IMAGE => 1 | REGION_COPY => 2 | ACCOUNT_SHARE => 3
  end.
Definition ArtifactType_of_nat (n : nat) : option ArtifactType :=
  match n with
  | 0 => Some BASE_IMAGE | 1 => Some CLOUD_IMAGE | 2 => Some REGION_COPY
  | 3 => Some ACCOUNT_SHARE | _ => None
  end%nat.
#[global] Program Instance ArtifactType_countable : Countable ArtifactType :=
  inj_countable ArtifactType_to_nat ArtifactType_of_nat _.
Next Obligation. by intros []. Qed.

Definition ArtifactStatus_to_nat (t : ArtifactStatus) : nat :=
  match t with
  | PENDING => 0 | BUILDING => 1 | COMPLETED => 2 | FAILED => 3 | DEPRECATED => 4
  end.
Definition ArtifactStatus_of_nat (n : nat) : option ArtifactStatus :=
  match n with
  | 0 => Some PENDING | 1 => Some BUILDING | 2 => Some COMPLETED
  | 3 => Some FAILED | 4 => Some DEPRECATED | _ => None
  end%nat.
#[global] Program Instance ArtifactStatus_countable : Countable ArtifactStatus :=
  inj_countable ArtifactStatus_to_nat ArtifactStatus_of_nat _.
Next Obligation. by intros []. Qed.

(** [select(column, func.count()).group_by(column)] read into a dict: one
    entry per value that occurs, with the number of rows that carry it. *)
Definition count_by `{Countable K} (column : Artifact → K)
    (rows : list Artifact) : gmap K nat :=
  foldr (λ r m, <[column r := S (default 0%nat (m !! column r))]> m) ∅ rows.

(** [func.sum(column)]: NULL over no non-NULL value, else their sum. *)
Definition sql_sum (values : list (option Z)) : option Z :=
  foldr (λ v acc, match v with
                  | Some z => Some (z + default 0 acc)
                  | None => acc
                  end) None values.

Record ArtifactStats : Type := {
  by_type : gmap ArtifactType nat;
  by_status : gmap ArtifactStatus nat;
  total_size_bytes : Z;
}.

Definition get_artifact_stats (db : store) : ArtifactStats :=
  let total_size :=
    match sql_sum (map art_size_bytes (artifacts db)) with
    | Some z => if truthy (PInt z) then z else 0
    | None => 0
    end in
  {| by_type := count_by art_artifact_type (artifacts db);
     by_status := count_by art_status (artifacts db);
     total_size_bytes := total_size |}.

(** *** Partial updates: the four [update_*] handlers below the groups *)

(** The request bodies after [model_dump(exclude_unset=True)], read as
    [ProductGroupUpdate] is. *)
Record ProductUpdate : Type := {
  pu_name : option (option string);
  pu_description : option (option string);
  pu_version : option (option string);
  pu_product_group_id : option (option Z);
}.
Record ArchitectureUpdate : Type := {
  au_name : option (option string);
  au_display_name : option (option string);
  au_description : option (option string);
  au_product_id : option (option Z);
}.
Record VariantUpdate : Type := {
  vu_name : option (option string);
  vu_description : option (option string);
  vu_build_config : option (option pyval);
  vu_architecture_id : option (option Z);
}.
Record ArtifactUpdate : Type := {
  artu_name : option (option string);
  artu_artifact_type : option (option ArtifactType);
  artu_status : option (option ArtifactStatus);
  artu_location : option (option string);
  artu_region : option (option string);
  artu_account_id : option (option string);
  artu_size_bytes : option (option Z);
  artu_checksum : option (option string);
  artu_build_id : option (option string);
  artu_build_metadata : option (option pyval);
  artu_variant_id : option (option Z);
}.

(** [setattr] of a supplied field on a [nullable=False] column: the commit
    cannot store [null]. *)
Definition set_required {A} (old : A) (supplied : option (option A))
    : option A :=
  default (Some old) supplied.

(** [if "parent_id" in update_data:] the parent row is looked up, and a
    supplied [null] equals no id. *)
Definition parent_of_update {P} (column : P → Z) (supplied : option (option Z))
    (rows : list P) : result bool :=
  match supplied with
  | None => Ok true
  | Some None => Ok false
  | Some (Some parent_id) =>
      match by_id column parent_id rows with
      | Raise e => Raise e
      | Ok (Some _) => Ok true
      | Ok None => Ok false
      end
  end.

(** What the four handlers share: 404 without the row, 400 without the
    supplied parent, then the fields are set and committed. *)
Definition updated {A} (found : result (option A)) (missing : string)
    (parent : result bool) (orphan : string) (patch : A → option A)
    (replace : A → store) (db : store) : response A * store :=
  match found with
  | Raise e => (ServerError e, db)
  | Ok None => (HTTPException 404 missing, db)
  | Ok (Some row) =>
      match parent with
      | Raise e => (ServerError e, db)
      | Ok false => (HTTPException 400 orphan, db)
      | Ok true =>
          match patch row with
          | None => (ServerError IntegrityError, db)
          | Some row' => (Success 200 row', replace row')
          end
      end
  end.

(** [setattr] of the supplied fields on the row, and the refreshed stamp;
    no row when a [nullable=False] column is sent [null].  The other three
    entities follow. *)
Definition patch_product (upd : ProductUpdate) (t : Z) (row : Product)
    : option Product :=
  name ← set_required (p_name row) (pu_name upd);
  product_group_id ←
    set_required (p_product_group_id row) (pu_product_group_id upd);
  Some {| p_id := p_id row; p_created_at := p_created_at row;
          p_updated_at := t; p_name := name;
          p_description := default (p_description row) (pu_description upd);
          p_version := default (p_version row) (pu_version upd);
          p_product_group_id := product_group_id |}.

Definition replace_product (db : store) (row : Product) : store :=
  {| product_groups := product_groups db;
     products :=
       map (λ r, if decide (p_id r = p_id row) then row else r) (products db);
     architectures := architectures db; variants := variants db;
     artifacts := artifacts db; now := now db |}.

Definition update_product (product_id : Z) (product_update : ProductUpdate)
    (db : store) : response Product * store :=
  updated (by_id p_id product_id (products db)) "Product not found"
    (parent_of_update pg_id (pu_product_group_id product_update)
       (product_groups db))
    "Product group not found"
    (patch_product product_update (now db)) (replace_product db) db.

Definition patch_architecture (upd : ArchitectureUpdate) (t : Z)
    (row : Architecture) : option Architecture :=
  name ← set_required (a_name row) (au_name upd);
  product_id ← set_required (a_product_id row) (au_product_id upd);
  Some {| a_id := a_id row; a_created_at := a_created_at row;
          a_updated_at := t; a_name := name;
          a_display_name := default (a_display_name row) (au_display_name upd);
          a_description := default (a_description row) (au_description upd);
          a_product_id := product_id |}.

Definition replace_architecture (db : store) (row : Architecture) : store :=
  {| product_groups := product_groups db; products := products db;
     architectures :=
       map (λ r, if decide (a_id r = a_id row) then row else r)
           (architectures db);
     variants := variants db; artifacts := artifacts db; now := now db |}.

Definition update_architecture (architecture_id : Z)
    (architecture_update : ArchitectureUpdate) (db : store)
    : response Architecture * store :=
  updated (by_id a_id architecture_id (architectures db))
    "Architecture not found"
    (parent_of_update p_id (au_product_id architecture_update) (products db))
    "Product not found"
    (patch_architecture architecture_update (now db))
    (replace_architecture db) db.

Definition patch_variant (upd : VariantUpdate) (t : Z) (row : Variant)
    : option Variant :=
  name ← set_required (v_name row) (vu_name upd);
  architecture_id ←
    set_required (v_architecture_id row) (vu_architecture_id upd);
  Some {| v_id := v_id row; v_created_at := v_created_at row;
          v_updated_at := t; v_name := name;
          v_description := default (v_description row) (vu_description upd);
          v_build_config := default (v_build_config row) (vu_build_config upd);
          v_architecture_id := architecture_id |}.

Definition replace_variant (db : store) (row : Variant) : store :=
  {| product_groups := product_groups db; products := products db;
     architectures := architectures db;
     variants :=
       map (λ r, if decide (v_id r = v_id row) then row else r) (variants db);
     artifacts := artifacts db; now := now db |}.

Definition update_variant (variant_id : Z) (variant_update : VariantUpdate)
    (db : store) : response Variant * store :=
  updated (by_id v_id variant_id (variants db)) "Variant not found"
    (parent_of_update a_id (vu_architecture_id variant_update)
       (architectures db))
    "Architecture not found"
    (patch_variant variant_update (now db)) (replace_variant db) db.

Definition patch_artifact (upd : ArtifactUpdate) (t : Z) (row : Artifact)
    : option Artifact :=
  name ← set_required (art_name row) (artu_name upd);
  artifact_type ←
    set_required (art_artifact_type row) (artu_artifact_type upd);
  status ← set_required (art_status row) (artu_status upd);
  variant_id ← set_required (art_variant_id row) (artu_variant_id upd);
  Some {| art_id := art_id row; art_created_at := art_created_at row;
          art_updated_at := t; art_name := name;
          art_artifact_type := artifact_type; art_status := status;
          art_location := default (art_location row) (artu_location upd);
          art_region := default (art_region row) (artu_region upd);
          art_account_id := default (art_account_id row) (artu_account_id upd);
          art_size_bytes := default (art_size_bytes row) (artu_size_bytes upd);
          art_checksum := default (art_checksum row) (artu_checksum upd);
          art_build_id := default (art_build_id row) (artu_build_id upd);
          art_build_metadata :=
            default (art_build_metadata row) (artu_build_metadata upd);
          art_variant_id := variant_id |}.

Definition replace_artifact (db : store) (row : Artifact) : store :=
  {| product_groups := product_groups db; products := products db;
     architectures := architectures db; variants := variants db;
     artifacts :=
       map (λ r, if decide (art_id r = art_id row) then row else r)
           (artifacts db);
     now := now db |}.

Definition update_artifact (artifact_id : Z) (artifact_update : ArtifactUpdate)
    (db : store) : response Artifact * store :=
  updated (by_id art_id artifact_id (artifacts db)) "Artifact not found"
    (parent_of_update v_id (artu_variant_id artifact_update) (variants db))
    "Variant not found"
    (patch_artifact artifact_update (now db)) (replace_artifact db) db.

(** *** Deletes *)

(** [session.delete(row)] under [cascade="all, delete-orphan"]
    ([models/*.py]): the rows that go take with them the rows of the child
    table that point at them, and so on down to the artifacts. *)
Definition delete_artifacts (doomed : Artifact → Prop)
    `{∀ r, Decision (doomed r)} (db : store) : store :=
  {| product_groups := product_groups db; products := products db;
     architectures := architectures db; variants := variants db;
     artifacts := filter (λ r, ¬ doomed r) (artifacts db); now := now db |}.

Definition delete_variants (doomed : Variant → Prop)
    `{∀ r, Decision (doomed r)} (db : store) : store :=
  let gone := map v_id (filter doomed (variants db)) in
  let db := delete_artifacts (λ r, art_variant_id r ∈ gone) db in
  {| product_groups := product_groups db; products := products db;
     architectures := architectures db;
     variants := filter (λ r, ¬ doomed r) (variants db);
     artifacts := artifacts db; now := now db |}.

Definition delete_architectures (doomed : Architecture → Prop)
    `{∀ r, Decision (doomed r)} (db : store) : store :=
  let gone := map a_id (filter doomed (architectures db)) in
  let db := delete_variants (λ r, v_architecture_id r ∈ gone) db in
  {| product_groups := product_groups db; products := products db;
     architectures := filter (λ r, ¬ doomed r) (architectures db);
     variants := variants db; artifacts := artifacts db; now := now db |}.

Definition delete_products (doomed : Product → Prop)
    `{∀ r, Decision (doomed r)} (db : store) : store :=
  let gone := map p_id (filter doomed (products db)) in
  let db := delete_architectures (λ r, a_product_id r ∈ gone) db in
  {| product_groups := product_groups db;
     products := filter (λ r, ¬ doomed r) (products db);
     architectures := architectures db; variants := variants db;
     artifacts := artifacts db; now := now db |}.

Definition delete_product_groups (doomed : ProductGroup → Prop)
    `{∀ r, Decision (doomed r)} (db : store) : store :=
  let gone := map pg_id (filter doomed (product_groups db)) in
  let db := delete_products (λ r, p_product_group_id r ∈ gone) db in
  {| product_groups := filter (λ r, ¬ doomed r) (product_groups db);
     products := products db; architectures := architectures db;
     variants := variants db; artifacts := artifacts db; now := now db |}.

(** What the five handlers share: 404 without the row, else the delete is
    committed and a message returned. *)
Definition deleted {A} (found : result (option A)) (missing message : string)
    (remove : A → store) (db : store) : response string * store :=
  match found with
  | Raise e => (ServerError e, db)
  | Ok None => (HTTPException 404 missing, db)
  | Ok (Some row) => (Success 200 message, remove row)
  end.

Definition delete_product_group (product_group_id : Z) (db : store)
    : response string * store :=
  deleted (by_id pg_id product_group_id (product_groups db))
    "Product group not found" "Product group deleted successfully"
    (λ row, delete_product_groups (λ r, pg_id r = pg_id row) db) db.

Definition delete_product (product_id : Z) (db : store)
    : response string * store :=
  deleted (by_id p_id product_id (products db))
    "Product not found" "Product deleted successfully"
    (λ row, delete_products (λ r, p_id r = p_id row) db) db.

Definition delete_architecture (architecture_id : Z) (db : store)
    : response string * store :=
  deleted (by_id a_id architecture_id (architectures db))
    "Architecture not found" "Architecture deleted successfully"
    (λ row, delete_architectures (λ r, a_id r = a_id row) db) db.

Definition delete_variant (variant_id : Z) (db : store)
    : response string * store :=
  deleted (by_id v_id variant_id (variants db))
    "Variant not found" "Variant deleted successfully"
    (λ row, delete_variants (λ r, v_id r = v_id row) db) db.

Definition delete_artifact (artifact_id : Z) (db : store)
    : response string * store :=
  deleted (by_id art_id artifact_id (artifacts db))
    "Artifact not found" "Artifact deleted successfully"
    (λ row, delete_artifacts (λ r, art_id r = art_id row) db) db.

(** *** A group with its products: [get_product_group_with_products] *)





End Api.

(* ===================================================================== *)
(** ** Sample inputs *)
(* ===================================================================== *)

Module Examples.
Import Py Store.

(** A configuration with two architectures, a defaulted entry, a
    [just_like] entry, an entry with an empty [arches], and a blacklisted
    group. *)
Definition rocky : pyval :=
  PDict [("product_groups", PDict [
    ("Rocky", PDict [("products", PDict [
       ("rocky-8", PDict [("releasever", PInt 8);
                          ("arches", PList [PStr "x86_64"; PStr "aarch64"]);
                          ("repository_groups", PDict [("base", PNone)])]);
       ("rocky-9", PDict [("releasever", PFloat "9.2")]);
       ("rocky-10", PDict [("just_like", PStr "rocky-9")]);
       ("rocky-11", PDict [("arches", PList [])])])]);
    ("CIQ-Kernel", PNone)])].

(** One product whose [arches] is the empty list. *)
Definition empty_arches : pyval :=
  PDict [("product_groups", PDict [
    ("Rocky", PDict [("products", PDict [
       ("rocky-11", PDict [("arches", PList [])])])])])].

(** A well-formed group followed by a group with nothing under it. *)
Definition broken_group : pyval :=
  PDict [("product_groups", PDict [
    ("Rocky", PDict [("products", PDict [
       ("rocky-9", PDict [("releasever", PInt 9)])])]);
    ("Broken", PNone)])].

(** A store with one product, under a group of id 1. *)
Definition one_product : store :=
  {| product_groups :=
       [{| pg_id := 1; pg_created_at := 0; pg_updated_at := 0;
           pg_name := "Rocky"; pg_description := None |}];
     products :=
       [{| p_id := 1; p_created_at := 0; p_updated_at := 0;
           p_name := "rocky-9"; p_description := None; p_version := None;
           p_product_group_id := 1 |}];
     architectures := []; variants := []; artifacts := []; now := 0 |}.

(** A group row, and a session that holds it and nothing else. *)
Definition rocky_group : ProductGroup :=
  {| pg_id := 1; pg_created_at := 0; pg_updated_at := 0;
     pg_name := "Rocky";
     pg_description := Some "Product group for Rocky products" |}.

Definition one_group : store :=
  {| product_groups := [rocky_group]; products := []; architectures := [];
     variants := []; artifacts := []; now := 0 |}.


(** A store with two groups and a row of every table under each of them;
    the first variant has two artifacts. *)
Definition full_tree : store :=
  {| product_groups :=
       [rocky_group;
        {| pg_id := 2; pg_created_at := 5; pg_updated_at := 5;
           pg_name := "CIQ"; pg_description := None |}];
     products :=
       [{| p_id := 1; p_created_at := 1; p_updated_at := 1;
           p_name := "rocky-9"; p_description := None; p_version := Some "9";
           p_product_group_id := 1 |};
        {| p_id := 2; p_created_at := 6; p_updated_at := 6;
           p_name := "ciq-9"; p_description := None; p_version := None;
           p_product_group_id := 2 |}];
     architectures :=
       [{| a_id := 1; a_created_at := 2; a_updated_at := 2;
           a_name := "x86_64"; a_display_name := None; a_description := None;
           a_product_id := 1 |};
        {| a_id := 2; a_created_at := 7; a_updated_at := 7;
           a_name := "aarch64"; a_display_name := None; a_description := None;
           a_product_id := 2 |}];
     variants :=
       [{| v_id := 1; v_created_at := 3; v_updated_at := 3;
           v_name := "rocky-9-x86_64"; v_description := None;
           v_build_config := None; v_architecture_id := 1 |};
        {| v_id := 2; v_created_at := 8; v_updated_at := 8;
           v_name := "ciq-9-aarch64"; v_description := None;
           v_build_config := None; v_architecture_id := 2 |}];
     artifacts :=
       [{| art_id := 1; art_created_at := 4; art_updated_at := 4;
           art_name := "base"; art_artifact_type := BASE_IMAGE;
           art_status := COMPLETED; art_location := None;
           art_region := None; art_account_id := None;
           art_size_bytes := Some 10; art_checksum := None;
           art_build_id := None; art_build_metadata := None;
           art_variant_id := 1 |};
        {| art_id := 2; art_created_at := 9; art_updated_at := 9;
           art_name := "cloud"; art_artifact_type := CLOUD_IMAGE;
           art_status := PENDING; art_location := None;
           art_region := Some "us-east-1"; art_account_id := None;
           art_size_bytes := None; art_checksum := None;
           art_build_id := None; art_build_metadata := None;
           art_variant_id := 1 |};
        {| art_id := 3; art_created_at := 10; art_updated_at := 10;
           art_name := "base"; art_artifact_type := BASE_IMAGE;
           art_status := PENDING; art_location := None;
           art_region := None; art_account_id := None;
           art_size_bytes := Some 5; art_checksum := None;
           art_build_id := None; art_build_metadata := None;
           art_variant_id := 2 |}];
     now := 11 |}.

End Examples.

(* ===================================================================== *)
(** ** The vocabulary of the statements *)
(* ===================================================================== *)

Import Py Store Bootstrap.
Local Open Scope engine_scope.

(** *** Tables that only grow, and never under a key already in use *)

(** [T'] holds every row of [T], and for a key that [T] uses it holds
    exactly the rows [T] has. *)
Definition ext {A K} `{EqDecision K} (key : A → K) (T T' : list A) : Prop :=
  T ⊆ T' ∧
  ∀ k, (∃ r, r ∈ T ∧ key r = k) →
       filter (λ r, key r = k) T' = filter (λ r, key r = k) T.

(** The keys under which the engine looks rows up before it inserts. *)
Definition db_ext (db db' : store) : Prop :=
  ext pg_name (product_groups db) (product_groups db') ∧
  ext (λ r, (p_name r, p_product_group_id r)) (products db) (products db') ∧
  ext (λ r, (a_product_id r, a_name r)) (architectures db) (architectures db') ∧
  ext v_architecture_id (variants db) (variants db').

Definition grows (s s' : state) : Prop :=
  (errors (counters s) ≤ errors (counters s'))%nat ∧
  db_ext (session s) (session s').

(** Whatever the outcome, [c] only adds rows under unused keys and never
    lowers the error counter. *)
Definition growing {A} (c : M A) : Prop :=
  ∀ s r s', c s = (r, s') → grows s s'.

(** A call that returned [a] without counting an error returns [a] again,
    on any later store, changes nothing there and counts [n] skips. *)
Definition replays {A} (c : M A) (n : nat) : Prop :=
  ∀ s a s' db' k,
    c s = (Ok a, s') →
    errors (counters s') = errors (counters s) →
    db_ext (session s') db' →
    c {| session := db'; counters := k |}
    = (Ok a, {| session := db'; counters := add_skipped n k |}).

(** *** The item handlers, case by case *)

(** The outcome of an item handler whose body raised. *)
Definition failed {A} (db : store) (c : stats) : result (option A) * state :=
  (Ok None, {| session := db; counters := count_error c |}).

(** The second half of [create_variant_for], once the architecture row is
    known: [db] is the session at that point, [c] the counters. *)
Definition variant_part (product : Product) (product_data : dict) (arch : pyval)
    (c : stats) (architecture : Architecture) (db : store)
    : result (option Variant) * state :=
  match filter (λ r, v_architecture_id r = a_id architecture) (variants db) with
  | [] =>
      match make_build_config product_data with
      | Ok build_config =>
          let added :=
            add_variant db (p_name product +:+ "-" +:+ str arch)
              (Some (p_name product +:+ " for " +:+ str arch +:+ " architecture"))
              build_config (a_id architecture) in
          (Ok (Some added.1),
           {| session := added.2; counters := count_variant_created c |})
      | Raise _ => failed db c
      end
  | [row] => (Ok (Some row), {| session := db; counters := add_skipped 1 c |})
  | _ :: _ :: _ => failed db c
  end.

(** *** What a configuration makes the engine process *)











(** *** Outcomes of one item *)



(** Foreign keys that point at rows the store holds. *)
Definition referential (db : store) : Prop :=
  (∀ a, a ∈ architectures db → a_product_id a ∈ map p_id (products db)) ∧
  (∀ v, v ∈ variants db → v_architecture_id v ∈ map a_id (architectures db)).

(** Whether a product entry is a mapping that holds [just_like]. *)
Definition has_just_like (product_data : pyval) : bool :=
  match product_data with
  | PDict d => dict_has d "just_like"
  | _ => false
  end.

(** *** The variants a run creates *)





(** *** Statistics *)



(** *** What a run may do to the store *)

(** Every table keeps its rows in place and may gain rows at its end; the
    artifacts and the clock stay as they are. *)
Definition append_only (db db' : store) : Prop :=
  product_groups db `prefix_of` product_groups db' ∧
  products db `prefix_of` products db' ∧
  architectures db `prefix_of` architectures db' ∧
  variants db `prefix_of` variants db' ∧
  artifacts db' = artifacts db ∧
  now db' = now db.

(** The counters of created rows moved by as much as the tables grew. *)
Definition counted (s s' : state) : Prop :=
  (length (product_groups (session s')) + product_groups_created (counters s)
   = length (product_groups (session s)) + product_groups_created (counters s'))%nat ∧
  (length (products (session s')) + products_created (counters s)
   = length (products (session s)) + products_created (counters s'))%nat ∧
  (length (variants (session s')) + variants_created (counters s)
   = length (variants (session s)) + variants_created (counters s'))%nat.

(** No two rows of a table under one lookup key of the engine: one group
    per name, one product per name and group, one architecture per product
    and name, one variant per architecture. *)
Definition keys_unique (db : store) : Prop :=
  NoDup (map pg_name (product_groups db)) ∧
  NoDup (map (λ r, (p_name r, p_product_group_id r)) (products db)) ∧
  NoDup (map (λ r, (a_product_id r, a_name r)) (architectures db)) ∧
  NoDup (map v_architecture_id (variants db)).

(** No two rows of a table under one id. *)
Definition ids_unique (db : store) : Prop :=
  NoDup (map pg_id (product_groups db)) ∧
  NoDup (map p_id (products db)) ∧
  NoDup (map a_id (architectures db)) ∧
  NoDup (map v_id (variants db)) ∧
  NoDup (map art_id (artifacts db)).

(** Every foreign key names a row of the parent table. *)
Definition references_hold (db : store) : Prop :=
  (∀ p, p ∈ products db → p_product_group_id p ∈ map pg_id (product_groups db)) ∧
  (∀ a, a ∈ architectures db → a_product_id a ∈ map p_id (products db)) ∧
  (∀ v, v ∈ variants db → v_architecture_id v ∈ map a_id (architectures db)) ∧
  (∀ x, x ∈ artifacts db → art_variant_id x ∈ map v_id (variants db)).


(** *** Configurations the engine imports without an error *)







(** *** Runs that cannot abort *)




(** *** What the handlers keep of the store *)

(** Distinct ids in every table and no foreign key without its row. *)
Definition consistent (db : store) : Prop := ids_unique db ∧ references_hold db.

(** The rows below the group [g] in the store: its products, their
    architectures, the variants of these and the artifacts of those. *)
Definition product_below (g : Z) (p : Product) : Prop :=
  p_product_group_id p = g.
Definition architecture_below (g : Z) (db : store) (a : Architecture) : Prop :=
  ∃ p, p ∈ products db ∧ product_below g p ∧ a_product_id a = p_id p.
Definition variant_below (g : Z) (db : store) (v : Variant) : Prop :=
  ∃ a, a ∈ architectures db ∧ architecture_below g db a ∧
       v_architecture_id v = a_id a.
Definition artifact_below (g : Z) (db : store) (x : Artifact) : Prop :=
  ∃ v, v ∈ variants db ∧ variant_below g db v ∧ art_variant_id x = v_id v.


(** *** Listings *)




(** *** The counts of the statistics *)

(** The counts of a mapping of the statistics, added up. *)
Definition counts_total `{Countable K} (m : gmap K nat) : nat :=
  map_fold (λ _ n acc, (n + acc)%nat) 0%nat m.


(* ===================================================================== *)
(** ** Theorems *)
(* ===================================================================== *)

(** *** Tables that only grow, and never under a key already in use *)

Section table_ext.
Context {A K : Type} (key : A → K) `{!EqDecision K}.

Lemma ext_refl T : ext key T T.
Proof. split; [done | by intros]. Qed.

Lemma ext_trans T1 T2 T3 : ext key T1 T2 → ext key T2 T3 → ext key T1 T3.
Proof.
  intros [S12 F12] [S23 F23]. split; [by etrans |].
  intros k (r & Hr & Hk). rewrite F23, F12; eauto.
Qed.

Lemma filter_none (P : A → Prop) `{!∀ x, Decision (P x)} (T : list A) :
  filter P T = [] ↔ ∀ r, r ∈ T → ¬ P r.
Proof.
  split.
  - intros E r Hr HP. eapply (filter_nil_not_elem_of P); eauto.
  - intros Hall. induction T as [|x T IH]; [done |].
    rewrite filter_cons. destruct (decide (P x)) as [HP | _].
    + exfalso. apply (Hall x); [left | done].
    + apply IH. intros r Hr. apply Hall. by right.
Qed.

Lemma ext_snoc T x : filter (λ r, key r = key x) T = [] → ext key T (T ++ [x]).
Proof.
  intros E. split.
  - intros r Hr. apply elem_of_app. by left.
  - intros k (r & Hr & Hk). rewrite list.filter_app.
    rewrite (proj2 (filter_none (λ r, key r = k) [x])), app_nil_r; [done |].
    intros y Hy Hyk. apply list_elem_of_singleton in Hy. subst y.
    apply (proj1 (filter_none _ _) E r Hr). congruence.
Qed.

End table_ext.

(** *** The engine's runs: what every call preserves *)

Lemma db_ext_refl db : db_ext db db.
Proof. repeat split; by intros. Qed.

Lemma db_ext_trans db1 db2 db3 : db_ext db1 db2 → db_ext db2 db3 → db_ext db1 db3.
Proof.
  intros (?&?&?&?) (?&?&?&?). repeat split; eapply ext_trans; eauto.
Qed.

Lemma grows_refl s : grows s s.
Proof. split; [lia | apply db_ext_refl]. Qed.

Lemma grows_trans s1 s2 s3 : grows s1 s2 → grows s2 s3 → grows s1 s3.
Proof.
  intros [? ?] [? ?]. split; [lia | by eapply db_ext_trans].
Qed.

Lemma add_skipped_0 k : add_skipped 0 k = k.
Proof. destruct k. unfold add_skipped. simpl. f_equal. lia. Qed.


Lemma growing_ret {A} (a : A) : growing (ret a).
Proof. intros s r s' [= <- <-]. apply grows_refl. Qed.

Lemma growing_lift {A} (r : result A) : growing (lift r).
Proof. intros s r' s' [= <- <-]. apply grows_refl. Qed.

Lemma growing_bind {A B} (c : M A) (f : A → M B) :
  growing c → (∀ a, growing (f a)) → growing (bind c f).
Proof.
  intros Hc Hf s r s' E. unfold bind in E.
  destruct (c s) as [[a | e] s1] eqn:Ec.
  - eapply grows_trans; [by eapply Hc | by eapply Hf].
  - injection E as <- <-. by eapply Hc.
Qed.

Lemma growing_try_except {A} (body handler : M A) :
  growing body → growing handler → growing (try_except body handler).
Proof.
  intros Hb Hh s r s' E. unfold try_except in E.
  destruct (body s) as [[a | e] s1] eqn:Eb.
  - injection E as <- <-. by eapply Hb.
  - eapply grows_trans; [by eapply Hb | by eapply Hh].
Qed.

Lemma growing_update_stats f :
  (∀ c, errors c ≤ errors (f c))%nat → growing (update_stats f).
Proof.
  intros Hf s r s' [= <- <-]. split; [apply Hf | apply db_ext_refl].
Qed.

Lemma growing_for_each {A} (body : A → M unit) l :
  (∀ x, growing (body x)) → growing (for_each l body).
Proof.
  intros Hb. induction l as [|x l IH]; simpl.
  - apply growing_ret.
  - apply growing_bind; [apply Hb | by intros].
Qed.


Lemma replays_lift {A} (r : result A) : replays (lift r) 0.
Proof. intros s a' s' db' k [= -> <-] _ _. unfold lift. by rewrite add_skipped_0. Qed.



(** *** The three item handlers, case by case *)


Lemma filter_singleton_elem {A} (P : A → Prop) `{!∀ x, Decision (P x)} T x :
  filter P T = [x] → P x ∧ x ∈ T.
Proof.
  intros E. apply (list_elem_of_filter P). rewrite E. left.
Qed.


Lemma create_product_group_eq name description s :
  create_product_group name description s =
  match filter (λ r, pg_name r = name) (product_groups (session s)) with
  | [] =>
      let added := add_product_group (session s) name
                     (Some (or_else description
                              ("Product group for " +:+ name +:+ " products"))) in
      (Ok (Some added.1),
       {| session := added.2; counters := count_group_created (counters s) |})
  | [row] =>
      (Ok (Some row),
       {| session := session s; counters := add_skipped 1 (counters s) |})
  | _ :: _ :: _ =>
      (Ok None, {| session := session s; counters := count_error (counters s) |})
  end.
Proof.
  unfold create_product_group, try_except, bind, get_session, lift. simpl.
  destruct (filter _ _) as [|row [|row' rest]]; reflexivity.
Qed.

Lemma create_product_eq name pg version description s :
  create_product name pg version description s =
  match filter (λ r, p_name r = name ∧ p_product_group_id r = pg_id pg)
               (products (session s)) with
  | [] =>
      let added := add_product (session s) name
                     (Some (or_else description ("Product " +:+ name)))
                     version (pg_id pg) in
      (Ok (Some added.1),
       {| session := added.2; counters := count_product_created (counters s) |})
  | [row] =>
      (Ok (Some row),
       {| session := session s; counters := add_skipped 1 (counters s) |})
  | _ :: _ :: _ =>
      (Ok None, {| session := session s; counters := count_error (counters s) |})
  end.
Proof.
  unfold create_product, try_except, bind, get_session, lift. simpl.
  destruct (filter _ _) as [|row [|row' rest]]; reflexivity.
Qed.

Lemma create_variant_for_eq product product_data arch s :
  create_variant_for product product_data arch s =
  match filter (λ r, a_product_id r = p_id product ∧ eq_str arch (a_name r) = true)
               (architectures (session s)) with
  | [] =>
      match as_str arch with
      | Ok name =>
          let added :=
            add_architecture (session s) name
              (Some (title (replace_char "_" " " name)))
              (Some (name +:+ " architecture for " +:+ p_name product))
              (p_id product) in
          variant_part product product_data arch (counters s) added.1 added.2
      | Raise _ => failed (session s) (counters s)
      end
  | [row] => variant_part product product_data arch (counters s) row (session s)
  | _ :: _ :: _ => failed (session s) (counters s)
  end.
Proof.
  unfold create_variant_for, variant_part, failed, try_except, bind,
    get_session, lift, with_session.
  simpl.
  destruct (filter _ (architectures _)) as [|row [|row' rest]]; simpl;
    [destruct (as_str arch) as [name | e]; simpl | | ]; try reflexivity.
  - destruct (filter _ _) as [|v [|v' rest]]; simpl; try reflexivity.
    destruct (make_build_config product_data); reflexivity.
  - destruct (filter _ (variants _)) as [|v [|v' rest]]; simpl; try reflexivity.
    destruct (make_build_config product_data); reflexivity.
Qed.

Lemma product_key_iff name gid (r : Product) :
  p_name r = name ∧ p_product_group_id r = gid
  ↔ (p_name r, p_product_group_id r) = (name, gid).
Proof. split; [by intros [-> ->] | by intros [= -> ->]]. Qed.

Lemma arch_key_iff pid name (r : Architecture) :
  a_product_id r = pid ∧ eq_str (PStr name) (a_name r) = true
  ↔ (a_product_id r, a_name r) = (pid, name).
Proof.
  simpl. rewrite bool_decide_eq_true. split; [by intros [-> ->] | by intros [= -> ->]].
Qed.

Lemma db_ext_add_product_group db name description :
  filter (λ r, pg_name r = name) (product_groups db) = [] →
  db_ext db (add_product_group db name description).2.
Proof.
  intros E. refine (conj _ (conj _ (conj _ _))); simpl; try apply ext_refl.
  by apply ext_snoc.
Qed.

Lemma db_ext_add_product db name description version gid :
  filter (λ r, p_name r = name ∧ p_product_group_id r = gid) (products db) = [] →
  db_ext db (add_product db name description version gid).2.
Proof.
  intros E. refine (conj _ (conj _ (conj _ _))); simpl; try apply ext_refl.
  apply ext_snoc. simpl. rewrite <- E.
  apply list_filter_iff. intros r. symmetry. apply product_key_iff.
Qed.

Lemma db_ext_add_architecture db name display_name description pid :
  filter (λ r, a_product_id r = pid ∧ eq_str (PStr name) (a_name r) = true)
         (architectures db) = [] →
  db_ext db (add_architecture db name display_name description pid).2.
Proof.
  intros E. refine (conj _ (conj _ (conj _ _))); simpl; try apply ext_refl.
  apply ext_snoc. simpl. rewrite <- E.
  apply list_filter_iff. intros r. symmetry. apply arch_key_iff.
Qed.

Lemma db_ext_add_variant db name description build_config aid :
  filter (λ r, v_architecture_id r = aid) (variants db) = [] →
  db_ext db (add_variant db name description build_config aid).2.
Proof.
  intros E. refine (conj _ (conj _ (conj _ _))); simpl; try apply ext_refl.
  by apply ext_snoc.
Qed.

Lemma as_str_ok v name : as_str v = Ok name → v = PStr name.
Proof. destruct v; simpl; congruence. Qed.

Lemma growing_create_product_group name description :
  growing (create_product_group name description).
Proof.
  intros s r s' E. rewrite create_product_group_eq in E.
  destruct (filter _ _) as [|row [|row' rest]] eqn:F;
    injection E as <- <-; (split; [simpl; lia |]); cbn [session];
    [ exact (db_ext_add_product_group (session s) name _ F)
    | apply db_ext_refl .. ].
Qed.

Lemma growing_create_product name pg version description :
  growing (create_product name pg version description).
Proof.
  intros s r s' E. rewrite create_product_eq in E.
  destruct (filter _ _) as [|row [|row' rest]] eqn:F;
    injection E as <- <-; (split; [simpl; lia |]); cbn [session];
    [ exact (db_ext_add_product (session s) name _ version (pg_id pg) F)
    | apply db_ext_refl .. ].
Qed.

Lemma grows_variant_part product product_data arch s architecture db r s' :
  db_ext (session s) db →
  variant_part product product_data arch (counters s) architecture db = (r, s') →
  grows s s'.
Proof.
  intros Hdb E. unfold variant_part, failed in E.
  destruct (filter _ _) as [|row [|row' rest]] eqn:F;
    [destruct (make_build_config product_data) | |];
    injection E as <- <-; (split; [simpl; lia |]); cbn [session]; try done.
  eapply db_ext_trans; [done |].
  exact (db_ext_add_variant db _ _ a (a_id architecture) F).
Qed.

Lemma growing_create_variant_for product product_data arch :
  growing (create_variant_for product product_data arch).
Proof.
  intros s r s' E. rewrite create_variant_for_eq in E.
  destruct (filter _ (architectures _)) as [|row [|row' rest]] eqn:F.
  - destruct (as_str arch) as [name | e] eqn:Hname.
    + apply as_str_ok in Hname as ->.
      eapply grows_variant_part; [| exact E]. by apply db_ext_add_architecture.
    + injection E as <- <-. split; [simpl; lia | apply db_ext_refl].
  - eapply grows_variant_part; [| exact E]. apply db_ext_refl.
  - injection E as <- <-. split; [simpl; lia | apply db_ext_refl].
Qed.









(** *** The loops *)

Lemma bind_lift_ok {A B} (a : A) (f : A → M B) : bind (lift (Ok a)) f = f a.
Proof. reflexivity. Qed.





Lemma growing_create_variants_loop product arches product_data :
  growing (create_variants_loop product arches product_data).
Proof.
  induction arches as [|arch rest IH]; simpl.
  - apply growing_ret.
  - apply growing_bind; [apply growing_create_variant_for |].
    intros v. apply growing_bind; [done | intros; apply growing_ret].
Qed.


Lemma growing_create_variants product arches product_data :
  growing (create_variants product arches product_data).
Proof.
  apply growing_bind; [apply growing_lift | intros; apply growing_create_variants_loop].
Qed.

Lemma growing_process_product pg product_name product_data :
  growing (process_product pg product_name product_data).
Proof.
  unfold process_product.
  destruct product_data as [| | | | | |d]; try apply growing_ret.
  destruct (dict_has d "just_like"); [apply growing_ret |].
  apply growing_bind; [apply growing_create_product |].
  intros [product |]; [| apply growing_ret].
  destruct (truthy _); [| apply growing_ret].
  apply growing_bind; [apply growing_create_variants | intros; apply growing_ret].
Qed.






Lemma growing_process_group blacklist group_name group_data :
  growing (process_group blacklist group_name group_data).
Proof.
  unfold process_group.
  destruct (bool_decide _); [apply growing_ret |].
  apply growing_bind; [apply growing_create_product_group |].
  intros [pg |]; [| apply growing_ret].
  apply growing_bind; [apply growing_lift |]. intros has.
  destruct (negb has); [apply growing_ret |].
  apply growing_bind; [apply growing_lift |]. intros products.
  apply growing_bind; [apply growing_lift |]. intros entries.
  apply growing_for_each. intros. apply growing_process_product.
Qed.



Lemma growing_process_product_groups blacklist config :
  growing (process_product_groups blacklist config).
Proof.
  unfold process_product_groups.
  apply growing_bind; [apply growing_lift |]. intros has.
  destruct (negb has); [apply growing_ret |].
  apply growing_bind; [apply growing_lift |]. intros data.
  apply growing_bind; [apply growing_lift |]. intros total.
  apply growing_bind; [apply growing_lift |]. intros groups.
  apply growing_for_each. intros. apply growing_process_group.
Qed.


(** *** Idempotence of the import *)



(** *** Failures of one item *)







(** *** The default architecture *)

Lemma next_id_fresh ids x : x ∈ ids → x < next_id ids.
Proof.
  unfold next_id. induction ids as [|y ids IH]; intros Hx.
  - by apply elem_of_nil in Hx.
  - apply elem_of_cons in Hx as [-> | Hx]; simpl; [lia |].
    specialize (IH Hx). lia.
Qed.

Lemma no_architecture_of_next_product db arch :
  referential db →
  filter (λ r, a_product_id r = next_id (map p_id (products db))
               ∧ eq_str arch (a_name r) = true) (architectures db) = [].
Proof.
  intros [Ha _]. apply filter_none. intros r Hr [Hid _].
  apply Ha, next_id_fresh in Hr. lia.
Qed.

Lemma no_variant_of_next_architecture db :
  referential db →
  filter (λ r, v_architecture_id r = next_id (map a_id (architectures db)))
         (variants db) = [].
Proof.
  intros [_ Hv]. apply filter_none. intros r Hr Hid.
  apply Hv, next_id_fresh in Hr. lia.
Qed.

(** C3, as the code has it: for a product entry taken up and not yet in
    the store, the architecture list is the entry's [arches]; without that
    key it is x86_64 alone, and one Architecture and one Variant are
    created for it; with the key present and empty (or otherwise falsy)
    no Architecture and no Variant is created. *)
Theorem arches_default_only_when_absent pg product_name d s :
  dict_has d "just_like" = false →
  filter (λ r, p_name r = product_name ∧ p_product_group_id r = pg_id pg)
         (products (session s)) = [] →
  referential (session s) →
  ∃ product s1,
    products (session s1) = products (session s) ++ [product] ∧
    architectures (session s1) = architectures (session s) ∧
    variants (session s1) = variants (session s) ∧
    p_name product = product_name ∧
    match dict_get d "arches" with
    | None =>
        ∀ build_config, make_build_config d = Ok build_config →
        ∃ architecture variant s',
          process_product pg product_name (PDict d) s = (Ok tt, s') ∧
          products (session s') = products (session s1) ∧
          architectures (session s') = architectures (session s) ++ [architecture] ∧
          variants (session s') = variants (session s) ++ [variant] ∧
          a_name architecture = "x86_64" ∧
          a_product_id architecture = p_id product ∧
          v_name variant = product_name +:+ "-x86_64" ∧
          v_architecture_id variant = a_id architecture
    | Some arches =>
        if truthy arches
        then process_product pg product_name (PDict d) s
             = (create_variants product arches d ;; ret tt) s1
        else process_product pg product_name (PDict d) s = (Ok tt, s1)
    end.
Proof.
  intros Hjl Hfresh [Ha Hv].
  set (version := str (default (PStr "1.0") (dict_get d "releasever"))).
  set (added :=
         add_product (session s) product_name
           (Some (or_else
                    (Some ("Product " +:+ product_name +:+ " version " +:+ version))
                    ("Product " +:+ product_name)))
           (Some version) (pg_id pg)).
  exists added.1,
    {| session := added.2; counters := count_product_created (counters s) |}.
  split_and!; [reflexivity .. |].
  assert (process_product pg product_name (PDict d) s
          = (let arches := default (PList [PStr "x86_64"]) (dict_get d "arches") in
             if truthy arches
             then create_variants added.1 arches d ;; ret tt
             else ret tt)
              {| session := added.2;
                 counters := count_product_created (counters s) |}) as ->.
  { unfold process_product. rewrite Hjl. unfold bind at 1.
    by rewrite create_product_eq, Hfresh. }
  destruct (dict_get d "arches") as [arches |] eqn:Harches;
    cbn [default from_option id]; cbn zeta.
  - destruct (truthy arches); reflexivity.
  - intros build_config Hbc. eexists _, _, _. split.
    + cbn [truthy]. rewrite bool_decide_eq_false_2 by done. cbn [negb].
      unfold create_variants. cbn [iter]. rewrite bind_lift_ok.
      cbn [create_variants_loop]. unfold bind at 1 2.
      rewrite create_variant_for_eq. cbn [session fst snd].
      rewrite (no_architecture_of_next_product (session s) _ (conj Ha Hv)).
      cbn [as_str]. cbn zeta. unfold variant_part.
      cbn [fst snd add_architecture variants a_id].
      change (architectures added.2) with (architectures (session s)).
      change (variants added.2) with (variants (session s)).
      rewrite (no_variant_of_next_architecture (session s) (conj Ha Hv)), Hbc.
      reflexivity.
    + by split_and!.
Qed.

Lemma arches_default_only_when_absent_witness :
  ∃ s',
    process_product Examples.rocky_group "rocky-9" (PDict [("releasever", PFloat "9.2")])
      {| session := Examples.one_group; counters := zero_stats |} = (Ok tt, s') ∧
    map a_name (architectures (session s')) = ["x86_64"] ∧
    map v_name (variants (session s')) = ["rocky-9-x86_64"].
Proof.
  destruct (arches_default_only_when_absent Examples.rocky_group "rocky-9"
              [("releasever", PFloat "9.2")]
              {| session := Examples.one_group; counters := zero_stats |})
    as (product & s1 & _ & _ & _ & _ & Hrun).
  - reflexivity.
  - reflexivity.
  - split; intros x Hx; by apply elem_of_nil in Hx.
  - destruct (Hrun _ eq_refl)
      as (a & v & s' & E & _ & Ha & Hv & Hname & _ & Hvname & _).
    exists s'. split; [exact E |]. rewrite Ha, Hv. simpl.
    by rewrite Hname, Hvname.
Defined.

(** C3, as the spec words it, fails: an entry whose [arches] is the empty
    list gets its Product and neither an Architecture nor a Variant. *)
Lemma empty_arches_creates_no_variant :
  ∃ db c,
    bootstrap (init_blacklist None) Examples.empty_arches (empty_store 0)
    = (Ok tt, db, c) ∧
    map p_name (products db) = ["rocky-11"] ∧
    architectures db = [] ∧ variants db = [] ∧
    ¬ (length (architectures db) = 1%nat ∧ length (variants db) = 1%nat).
Proof.
  eexists _, _. split; [vm_compute; reflexivity |].
  split_and!; [reflexivity .. |]. by intros [? ?].
Qed.


(** An exception that escapes: the second group has no mapping under it,
    [in] raises on it outside every handler, and nothing of the run is
    committed although two groups, a product, an architecture and a variant
    had been flushed. *)
Lemma escaped_exception_rolls_back :
  bootstrap (init_blacklist None) Examples.broken_group (empty_store 0)
  = (Raise TypeError, empty_store 0,
     {| product_groups_created := 2; products_created := 1;
        variants_created := 1; skipped := 0; errors := 0 |}).
Proof. vm_compute. reflexivity. Qed.

(** *** Blacklisted groups and [just_like] entries *)



(** C7: a product entry that is a mapping with a [just_like] key is passed
    over with the session and the counters untouched, and the loop over the
    products of a group is the loop over the entries without that key. *)
Theorem just_like_entries_create_nothing :
  (∀ pg product_name product_data s,
     has_just_like product_data = true →
     process_product pg product_name product_data s = (Ok tt, s)) ∧
  (∀ pg entries s,
     for_each entries (λ kv, process_product pg kv.1 kv.2) s
     = for_each (filter (λ kv, has_just_like kv.2 = false) entries)
         (λ kv, process_product pg kv.1 kv.2) s).
Proof.
  assert (∀ pg product_name product_data s,
            has_just_like product_data = true →
            process_product pg product_name product_data s = (Ok tt, s)) as Hskip.
  { intros pg product_name [| b | z | t | text | l | d] s Hjl; try done.
    unfold process_product. simpl in Hjl. by rewrite Hjl. }
  split; [exact Hskip |].
  intros pg entries. induction entries as [|[name data] entries IH]; intros s.
  - done.
  - rewrite filter_cons. cbn [snd].
    destruct (decide (has_just_like data = false)) as [Hno | Hyes].
    + cbn [for_each]. unfold bind.
      destruct (process_product pg _ _ s) as [[u | e] s1]; [apply IH | done].
    + cbn [for_each]. unfold bind at 1. cbn [fst snd].
      rewrite Hskip; [apply IH |]. by destruct (has_just_like data).
Qed.

Lemma just_like_entries_create_nothing_witness :
  process_product Examples.rocky_group "rocky-10"
    (PDict [("just_like", PStr "rocky-9")])
    {| session := Examples.one_group; counters := zero_stats |}
  = (Ok tt, {| session := Examples.one_group; counters := zero_stats |}).
Proof.
  apply (proj1 just_like_entries_create_nothing). reflexivity.
Defined.

(** *** The variants a run creates *)



















(** *** The repository: bad references and name conflicts *)

Import Api.

Lemma by_id_absent {A} (column : A → Z) id rows :
  id ∉ map column rows → by_id column id rows = Ok None.
Proof.
  intros Hid. unfold by_id.
  rewrite (proj2 (filter_none (λ r, column r = id) rows)); [done |].
  intros r Hr <-. apply Hid. apply list_elem_of_fmap. by exists r.
Qed.



Lemma unique_query {A K} `{EqDecision K} (column : A → K) rows x :
  NoDup (map column rows) → x ∈ rows →
  filter (λ r, column r = column x) rows = [x].
Proof.
  induction rows as [|y rows IH]; intros Hnd Hx.
  - by apply elem_of_nil in Hx.
  - simpl in Hnd. apply list.NoDup_cons in Hnd as [Hy Hnd]. rewrite filter_cons.
    apply elem_of_cons in Hx as [-> | Hx].
    + rewrite decide_True by done. f_equal.
      apply filter_none. intros r Hr Heq. apply Hy.
      rewrite <- Heq. apply list_elem_of_fmap. by exists r.
    + rewrite decide_False; [by apply IH |].
      intros Heq. apply Hy. rewrite Heq. apply list_elem_of_fmap. by exists x.
Qed.

(** C5: with group names and ids unique in the store, creating a group
    under a name in use answers 400 with a message that quotes the name, and
    under any other name adds the group; patching a group with its own name
    succeeds, and with the name of another group answers 400 with that
    name quoted. *)
Theorem product_group_names_conflict db :
  NoDup (map pg_name (product_groups db)) →
  NoDup (map pg_id (product_groups db)) →
  (∀ product_group,
     pgc_name product_group ∈ map pg_name (product_groups db) →
     Api.create_product_group product_group db
     = (HTTPException 400
          ("Product group with name '" +:+ pgc_name product_group
             +:+ "' already exists"), db)) ∧
  (∀ product_group,
     pgc_name product_group ∉ map pg_name (product_groups db) →
     ∃ row db',
       Api.create_product_group product_group db = (Success 201 row, db') ∧
       pg_name row = pgc_name product_group ∧
       product_groups db' = product_groups db ++ [row]) ∧
  (∀ g description,
     g ∈ product_groups db →
     ∃ row db',
       update_product_group (pg_id g)
         {| pgu_name := Some (Some (pg_name g)); pgu_description := description |}
         db = (Success 200 row, db') ∧
       pg_id row = pg_id g ∧ pg_name row = pg_name g) ∧
  (∀ g other description,
     g ∈ product_groups db → other ∈ product_groups db →
     pg_name other ≠ pg_name g →
     update_product_group (pg_id g)
       {| pgu_name := Some (Some (pg_name other)); pgu_description := description |}
       db
     = (HTTPException 400
          ("Product group with name '" +:+ pg_name other +:+ "' already exists"),
        db)).
Proof.
  intros Hnames Hids. split_and!.
  - intros product_group Hin. unfold Api.create_product_group.
    apply list_elem_of_fmap in Hin as (g & Hname & Hg).
    by rewrite Hname, (unique_query pg_name _ g Hnames Hg).
  - intros product_group Hout. unfold Api.create_product_group.
    rewrite (proj2 (filter_none (λ r, pg_name r = pgc_name product_group) _)).
    + by eexists _, _.
    + intros r Hr Heq. apply Hout. rewrite <- Heq.
      apply list_elem_of_fmap. by exists r.
  - intros g description Hg. unfold update_product_group, by_id.
    rewrite (unique_query pg_id _ g Hids Hg). cbn [scalar_one_or_none].
    unfold name_conflict. cbn [pgu_name].
    rewrite decide_False by (by intros H; apply H).
    cbn [default from_option id]. by eexists _, _.
  - intros g other description Hg Hother Hne.
    unfold update_product_group, by_id.
    rewrite (unique_query pg_id _ g Hids Hg). cbn [scalar_one_or_none].
    unfold name_conflict. cbn [pgu_name].
    rewrite decide_True by congruence.
    rewrite (list_filter_iff _ (λ r, pg_name r = pg_name other))
      by (intros r; split; congruence).
    by rewrite (unique_query pg_name _ other Hnames Hother).
Qed.

Lemma product_group_names_conflict_witness :
  Api.create_product_group
    {| pgc_name := "Rocky"; pgc_description := Some "Another group" |}
    Examples.one_group
  = (HTTPException 400 "Product group with name 'Rocky' already exists",
     Examples.one_group) ∧
  ∃ row db',
    Api.create_product_group
      {| pgc_name := "rocky"; pgc_description := None |} Examples.one_group
    = (Success 201 row, db') ∧
    pg_name row = "rocky" ∧
    product_groups db' = product_groups Examples.one_group ++ [row].
Proof.
  assert (NoDup (map pg_name (product_groups Examples.one_group))) as Hnames
    by (apply (bool_decide_unpack _); vm_compute; exact I).
  assert (NoDup (map pg_id (product_groups Examples.one_group))) as Hids
    by (apply (bool_decide_unpack _); vm_compute; exact I).
  destruct (product_group_names_conflict Examples.one_group Hnames Hids)
    as (Hdup & Hnew & _).
  split.
  - apply (Hdup {| pgc_name := "Rocky"; pgc_description := Some "Another group" |}).
    apply (bool_decide_unpack _). vm_compute. exact I.
  - apply (Hnew {| pgc_name := "rocky"; pgc_description := None |}).
    apply (bool_decide_unpack _). vm_compute. exact I.
Defined.

(** *** Statistics and list filters *)






(** No product of this store has the parent 0, and the filter value 0 lists
    its product all the same. *)
Lemma zero_filter_lists_every_product :
  list_products 0 100 (Some 0) Examples.one_product
  = Success 200 (products Examples.one_product) ∧
  filter (λ r, p_product_group_id r = 0) (products Examples.one_product) = [].
Proof. split; vm_compute; reflexivity. Qed.

(* ===================================================================== *)
(** ** Further properties of the engine *)
(* ===================================================================== *)

(** *** A relation kept by every step of a run *)

Lemma bind_inv {A B} (c : M A) (f : A → M B) s r s' :
  bind c f s = (r, s') →
  (∃ a s1, c s = (Ok a, s1) ∧ f a s1 = (r, s')) ∨
  (∃ e, c s = (Raise e, s') ∧ r = Raise e).
Proof.
  unfold bind. destruct (c s) as [[a | e] s1].
  - intros E. left. by exists a, s1.
  - intros [= <- <-]. right. by exists e.
Qed.

Section engine_steps.
Local Set Default Proof Using "All".
Variable R : state → state → Prop.
Hypothesis R_refl : ∀ s, R s s.
Hypothesis R_trans : ∀ s1 s2 s3, R s1 s2 → R s2 s3 → R s1 s3.
Hypothesis R_grows : ∀ s s', R s s' →
  product_groups (session s) ⊆ product_groups (session s') ∧
  products (session s) ⊆ products (session s') ∧
  architectures (session s) ⊆ architectures (session s').
Hypothesis R_skip : ∀ s,
  R s {| session := session s; counters := add_skipped 1 (counters s) |}.
Hypothesis R_error : ∀ s,
  R s {| session := session s; counters := count_error (counters s) |}.
Hypothesis R_group : ∀ s name description,
  filter (λ r, pg_name r = name) (product_groups (session s)) = [] →
  R s {| session := (add_product_group (session s) name description).2;
         counters := count_group_created (counters s) |}.
Hypothesis R_product : ∀ s name description version pg,
  pg ∈ product_groups (session s) →
  filter (λ r, p_name r = name ∧ p_product_group_id r = pg_id pg)
         (products (session s)) = [] →
  R s {| session := (add_product (session s) name description version
                       (pg_id pg)).2;
         counters := count_product_created (counters s) |}.
Hypothesis R_architecture : ∀ s name display_name description product,
  product ∈ products (session s) →
  filter (λ r, a_product_id r = p_id product ∧ eq_str (PStr name) (a_name r) = true)
         (architectures (session s)) = [] →
  R s {| session := (add_architecture (session s) name display_name description
                       (p_id product)).2;
         counters := counters s |}.
Hypothesis R_variant : ∀ s name description build_config architecture,
  architecture ∈ architectures (session s) →
  filter (λ r, v_architecture_id r = a_id architecture)
         (variants (session s)) = [] →
  R s {| session := (add_variant (session s) name description build_config
                       (a_id architecture)).2;
         counters := count_variant_created (counters s) |}.

Lemma step_create_product_group name description s r s' :
  Bootstrap.create_product_group name description s = (r, s') →
  R s s' ∧ ∀ pg, r = Ok (Some pg) → pg ∈ product_groups (session s').
Proof.
  rewrite create_product_group_eq.
  destruct (filter _ _) as [|row [|row' rest]] eqn:F; intros [= <- <-].
  - split; [by apply R_group |]. intros pg [= <-]. cbn.
    apply elem_of_app. right. left.
  - split; [apply R_skip |]. intros pg [= <-].
    by destruct (filter_singleton_elem _ _ _ F).
  - split; [apply R_error | done].
Qed.

Lemma step_create_product name pg version description s r s' :
  pg ∈ product_groups (session s) →
  Bootstrap.create_product name pg version description s = (r, s') →
  R s s' ∧ ∀ p, r = Ok (Some p) → p ∈ products (session s').
Proof.
  intros Hpg. rewrite create_product_eq.
  destruct (filter _ _) as [|row [|row' rest]] eqn:F; intros [= <- <-].
  - split; [by apply R_product |]. intros p [= <-]. cbn.
    apply elem_of_app. right. left.
  - split; [apply R_skip |]. intros p [= <-].
    by destruct (filter_singleton_elem _ _ _ F).
  - split; [apply R_error | done].
Qed.

Lemma step_variant_part product product_data arch s architecture r s' :
  architecture ∈ architectures (session s) →
  variant_part product product_data arch (counters s) architecture (session s)
  = (r, s') →
  R s s'.
Proof.
  intros Ha. unfold variant_part, failed.
  destruct (filter _ _) as [|row [|row' rest]] eqn:F;
    [destruct (make_build_config product_data) | |]; intros [= <- <-];
    auto using R_skip, R_error.
  by apply (R_variant s).
Qed.

Lemma step_create_variant_for product product_data arch s r s' :
  product ∈ products (session s) →
  create_variant_for product product_data arch s = (r, s') →
  R s s'.
Proof.
  intros Hp. rewrite create_variant_for_eq.
  destruct (filter _ (architectures _)) as [|row [|row' rest]] eqn:F.
  - destruct (as_str arch) as [name | e] eqn:Hname.
    + apply as_str_ok in Hname as ->. intros E.
      set (added := add_architecture (session s) name
                      (Some (title (replace_char "_" " " name)))
                      (Some (name +:+ " architecture for " +:+ p_name product))
                      (p_id product)) in *.
      set (s1 := {| session := added.2; counters := counters s |}).
      apply (R_trans s s1); [by apply R_architecture |].
      apply (step_variant_part product product_data (PStr name) s1 added.1 r s');
        [| exact E].
      cbn. apply elem_of_app. right. left.
    + intros [= <- <-]. apply R_error.
  - apply step_variant_part. by destruct (filter_singleton_elem _ _ _ F).
  - intros [= <- <-]. apply R_error.
Qed.

Lemma step_create_variants_loop product arches product_data s r s' :
  product ∈ products (session s) →
  create_variants_loop product arches product_data s = (r, s') →
  R s s'.
Proof.
  revert s r s'. induction arches as [|arch rest IH]; intros s r s' Hp; cbn.
  - intros [= <- <-]. apply R_refl.
  - intros E. apply bind_inv in E as [(v & s1 & E1 & E2) | (e & E1 & _)].
    + pose proof (step_create_variant_for _ _ _ _ _ _ Hp E1) as R1.
      apply (R_trans s s1); [done |].
      apply bind_inv in E2 as [(vs & s2 & E2 & [= <- <-]) | (e & E2 & _)];
        (eapply IH; [| exact E2]); by apply (R_grows s s1).
    + by eapply step_create_variant_for.
Qed.

Lemma step_process_product pg product_name product_data s r s' :
  pg ∈ product_groups (session s) →
  process_product pg product_name product_data s = (r, s') →
  R s s'.
Proof.
  intros Hpg. unfold process_product.
  destruct product_data as [| | | | | |d]; try (intros [= <- <-]; apply R_refl).
  destruct (dict_has d "just_like"); [intros [= <- <-]; apply R_refl |].
  intros E. apply bind_inv in E as [(p & s1 & E1 & E2) | (e & E1 & _)].
  - destruct (step_create_product _ _ _ _ _ _ _ Hpg E1) as [R1 Hin].
    apply (R_trans s s1); [done |].
    destruct p as [product |]; [| injection E2 as <- <-; apply R_refl].
    destruct (truthy _); [| injection E2 as <- <-; apply R_refl].
    specialize (Hin product eq_refl).
    apply bind_inv in E2 as [(vs & s2 & E2 & [= <- <-]) | (e & E2 & _)];
      unfold create_variants in E2;
      apply bind_inv in E2 as [(l & s3 & [= _ <-] & E3) | (e' & [= _ <-] & _)];
      try apply R_refl; by eapply step_create_variants_loop.
  - by destruct (step_create_product _ _ _ _ _ _ _ Hpg E1).
Qed.

Lemma step_products_loop pg (entries : dict) s r s' :
  pg ∈ product_groups (session s) →
  for_each entries (λ kv, process_product pg kv.1 kv.2) s = (r, s') →
  R s s'.
Proof.
  revert s. induction entries as [|[name data] entries IH]; intros s Hpg; cbn.
  - intros [= <- <-]. apply R_refl.
  - intros E. apply bind_inv in E as [(u & s1 & E1 & E2) | (e & E1 & _)].
    + pose proof (step_process_product _ _ _ _ _ _ Hpg E1) as R1.
      apply (R_trans s s1); [done |].
      apply IH; [by apply (R_grows s s1) | done].
    + by eapply step_process_product.
Qed.

Lemma step_process_group blacklist group_name group_data s r s' :
  process_group blacklist group_name group_data s = (r, s') → R s s'.
Proof.
  unfold process_group.
  destruct (bool_decide _); [intros [= <- <-]; apply R_refl |].
  intros E. apply bind_inv in E as [(g & s1 & E1 & E2) | (e & E1 & _)].
  - destruct (step_create_product_group _ _ _ _ _ E1) as [R1 Hin].
    apply (R_trans s s1); [done |].
    destruct g as [pg |]; [| injection E2 as <- <-; apply R_refl].
    specialize (Hin pg eq_refl).
    apply bind_inv in E2 as [(has & s2 & [= _ <-] & E2) | (e & [= _ <-] & _)];
      [| apply R_refl].
    destruct (negb has); [injection E2 as <- <-; apply R_refl |].
    apply bind_inv in E2 as [(ps & s3 & [= _ <-] & E2) | (e & [= _ <-] & _)];
      [| apply R_refl].
    apply bind_inv in E2 as [(es & s4 & [= _ <-] & E2) | (e & [= _ <-] & _)];
      [| apply R_refl].
    by eapply step_products_loop.
  - by destruct (step_create_product_group _ _ _ _ _ E1).
Qed.

Lemma step_groups_loop blacklist (groups : dict) s r s' :
  for_each groups (λ kv, process_group blacklist kv.1 kv.2) s = (r, s') →
  R s s'.
Proof.
  revert s. induction groups as [|[name data] groups IH]; intros s; cbn.
  - intros [= <- <-]. apply R_refl.
  - intros E. apply bind_inv in E as [(u & s1 & E1 & E2) | (e & E1 & _)].
    + apply (R_trans s s1); [by eapply step_process_group | by apply IH].
    + by eapply step_process_group.
Qed.

Lemma step_process_product_groups blacklist config s r s' :
  process_product_groups blacklist config s = (r, s') → R s s'.
Proof.
  unfold process_product_groups. intros E.
  apply bind_inv in E as [(has & s1 & [= _ <-] & E) | (e & [= _ <-] & _)];
    [| apply R_refl].
  destruct (negb has); [injection E as <- <-; apply R_refl |].
  apply bind_inv in E as [(d & s2 & [= _ <-] & E) | (e & [= _ <-] & _)];
    [| apply R_refl].
  apply bind_inv in E as [(n & s3 & [= _ <-] & E) | (e & [= _ <-] & _)];
    [| apply R_refl].
  apply bind_inv in E as [(gs & s4 & [= _ <-] & E) | (e & [= _ <-] & _)];
    [| apply R_refl].
  by eapply step_groups_loop.
Qed.
End engine_steps.

(** *** Append-only runs *)

Lemma append_only_refl db : append_only db db.
Proof. by repeat split. Qed.

Lemma append_only_trans db1 db2 db3 :
  append_only db1 db2 → append_only db2 db3 → append_only db1 db3.
Proof.
  intros (?&?&?&?&?&?) (?&?&?&?&?&?).
  repeat split; try (by etrans); congruence.
Qed.

Lemma append_only_subseteq db db' :
  append_only db db' →
  product_groups db ⊆ product_groups db' ∧
  products db ⊆ products db' ∧
  architectures db ⊆ architectures db'.
Proof.
  intros ([n1 ->] & [n2 ->] & [n3 ->] & _).
  repeat split; intros row Hrow; apply elem_of_app; by left.
Qed.

Lemma append_only_add_product_group db name description :
  append_only db (add_product_group db name description).2.
Proof. repeat split; cbn; try done. by eexists. Qed.

Lemma append_only_add_product db name description version gid :
  append_only db (add_product db name description version gid).2.
Proof. repeat split; cbn; try done. by eexists. Qed.

Lemma append_only_add_architecture db name display_name description pid :
  append_only db (add_architecture db name display_name description pid).2.
Proof. repeat split; cbn; try done. by eexists. Qed.

Lemma append_only_add_variant db name description build_config aid :
  append_only db (add_variant db name description build_config aid).2.
Proof. repeat split; cbn; try done. by eexists. Qed.

(** X1: a run, and what it commits, only adds rows at the end of the four
    tables of the hierarchy: no row is changed, moved or removed, and the
    artifacts are not touched. *)
Theorem run_is_append_only blacklist config :
  (∀ s, append_only (session s)
          (session (process_product_groups blacklist config s).2)) ∧
  (∀ db, append_only db (bootstrap blacklist config db).1.2).
Proof.
  assert (∀ s, append_only (session s)
                 (session (process_product_groups blacklist config s).2)) as Hrun.
  { intros s.
    destruct (process_product_groups blacklist config s) as [r s'] eqn:E.
    revert E.
    apply (step_process_product_groups
             (λ s s', append_only (session s) (session s')));
      intros; cbn [session];
      eauto using append_only_refl, append_only_trans, append_only_subseteq,
        append_only_add_product_group, append_only_add_product,
        append_only_add_architecture, append_only_add_variant. }
  split; [exact Hrun |].
  intros db. unfold bootstrap.
  specialize (Hrun {| session := db; counters := zero_stats |}).
  destruct (process_product_groups _ _ _) as [[u | e] s']; cbn in *;
    [done | apply append_only_refl].
Qed.

(** *** Counters and rows *)

Lemma counted_refl s : counted s s.
Proof. by repeat split. Qed.

Lemma counted_trans s1 s2 s3 : counted s1 s2 → counted s2 s3 → counted s1 s3.
Proof. intros (?&?&?) (?&?&?). repeat split; lia. Qed.

Lemma run_keeps_count blacklist config s :
  counted s (process_product_groups blacklist config s).2 ∧
  append_only (session s) (session (process_product_groups blacklist config s).2).
Proof.
  destruct (process_product_groups blacklist config s) as [r s'] eqn:E.
  revert E.
  apply (step_process_product_groups
           (λ s s', counted s s' ∧ append_only (session s) (session s'))).
  - intros s0. split; [apply counted_refl | apply append_only_refl].
  - intros s1 s2 s3 [? ?] [? ?].
    split; [by eapply counted_trans | by eapply append_only_trans].
  - intros s0 s1 [_ H]. by apply append_only_subseteq.
  - intros s0. split; [by repeat split | apply append_only_refl].
  - intros s0. split; [by repeat split | apply append_only_refl].
  - intros s0 name description _.
    split; [| apply append_only_add_product_group].
    repeat split; cbn; rewrite ?length_app; cbn; lia.
  - intros s0 name description version pg _ _.
    split; [| apply append_only_add_product].
    repeat split; cbn; rewrite ?length_app; cbn; lia.
  - intros s0 name display_name description product _ _.
    split; [by repeat split | apply append_only_add_architecture].
  - intros s0 name description build_config architecture _ _.
    split; [| apply append_only_add_variant].
    repeat split; cbn; rewrite ?length_app; cbn; lia.
Qed.

(** X2: the counters of a committed run say how many rows it added: the
    product groups, products and variants created are the numbers of rows
    by which those tables grew. *)
Theorem created_counters_match_rows blacklist config db db' c :
  bootstrap blacklist config db = (Ok tt, db', c) →
  length (product_groups db')
  = (length (product_groups db) + product_groups_created c)%nat ∧
  length (products db') = (length (products db) + products_created c)%nat ∧
  length (variants db') = (length (variants db) + variants_created c)%nat.
Proof.
  unfold bootstrap.
  pose proof (run_keeps_count blacklist config
                {| session := db; counters := zero_stats |}) as [(Hg & Hp & Hv) _].
  destruct (process_product_groups _ _ _) as [[u | e] s']; [| done].
  intros [= <- <-]. cbn in *. lia.
Qed.

Lemma created_counters_match_rows_witness :
  ∃ db' c,
    bootstrap (init_blacklist None) Examples.rocky Examples.one_group
    = (Ok tt, db', c) ∧
    length (product_groups db') = 1%nat ∧
    length (products db') = 3%nat ∧
    length (variants db') = 3%nat.
Proof.
  eexists _, _. split; [vm_compute; reflexivity |].
  destruct (created_counters_match_rows (init_blacklist None) Examples.rocky
              Examples.one_group _ _ ltac:(vm_compute; reflexivity))
    as (Hg & Hp & Hv).
  by rewrite Hg, Hp, Hv.
Defined.

(** *** Invariants of the store that a run keeps *)

Lemma NoDup_snoc_fresh {A K} (f : A → K) T x :
  NoDup (map f T) → f x ∉ map f T → NoDup (map f (T ++ [x])).
Proof.
  intros Hnd Hx. rewrite map_app. apply list.NoDup_app. split_and!; [done | |].
  - intros k Hk Hin. apply list_elem_of_singleton in Hin. by subst.
  - apply NoDup_singleton.
Qed.

Lemma filter_none_key {A K} `{EqDecision K} (f : A → K) k T :
  filter (λ r, f r = k) T = [] → k ∉ map f T.
Proof.
  intros E Hin. apply list_elem_of_fmap in Hin as (r & -> & Hr).
  by apply (proj1 (filter_none _ _) E r Hr).
Qed.

Lemma next_id_not_used ids : next_id ids ∉ ids.
Proof. intros Hin. apply next_id_fresh in Hin. lia. Qed.

(** An invariant of the store that each insertion of the engine keeps is
    kept by a run. *)
Lemma invariant_run (I : store → Prop) :
  (∀ db name description,
     filter (λ r, pg_name r = name) (product_groups db) = [] →
     I db → I (add_product_group db name description).2) →
  (∀ db name description version pg,
     pg ∈ product_groups db →
     filter (λ r, p_name r = name ∧ p_product_group_id r = pg_id pg)
            (products db) = [] →
     I db → I (add_product db name description version (pg_id pg)).2) →
  (∀ db name display_name description product,
     product ∈ products db →
     filter (λ r, a_product_id r = p_id product
                  ∧ eq_str (PStr name) (a_name r) = true)
            (architectures db) = [] →
     I db → I (add_architecture db name display_name description
                 (p_id product)).2) →
  (∀ db name description build_config architecture,
     architecture ∈ architectures db →
     filter (λ r, v_architecture_id r = a_id architecture) (variants db) = [] →
     I db → I (add_variant db name description build_config
                 (a_id architecture)).2) →
  ∀ blacklist config s,
    I (session s) → I (session (process_product_groups blacklist config s).2).
Proof.
  intros Hg Hp Ha Hv blacklist config s HI.
  destruct (process_product_groups blacklist config s) as [r s'] eqn:E.
  cbn [snd]. revert HI.
  cut (append_only (session s) (session s')
       ∧ (I (session s) → I (session s'))); [by intros [_ ?] |].
  revert E.
  apply (step_process_product_groups
           (λ s s', append_only (session s) (session s')
                    ∧ (I (session s) → I (session s')))).
  - intros s0. split; [apply append_only_refl | done].
  - intros s1 s2 s3 [? ?] [? ?]. split; [by eapply append_only_trans | auto].
  - intros s0 s1 [H _]. by apply append_only_subseteq.
  - intros s0. split; [apply append_only_refl | done].
  - intros s0. split; [apply append_only_refl | done].
  - intros s0 name description F.
    split; [apply append_only_add_product_group | by apply Hg].
  - intros s0 name description version pg Hpg F.
    split; [apply append_only_add_product | by apply Hp].
  - intros s0 name display_name description product Hproduct F.
    split; [apply append_only_add_architecture | by apply Ha].
  - intros s0 name description build_config architecture Harch F.
    split; [apply append_only_add_variant | by apply Hv].
Qed.

Lemma keys_unique_run blacklist config s :
  keys_unique (session s) →
  keys_unique (session (process_product_groups blacklist config s).2).
Proof.
  apply (invariant_run keys_unique).
  - intros db name description F (Hg & Hp & Ha & Hv).
    split_and!; cbn; try done.
    apply NoDup_snoc_fresh; [done |]. by apply filter_none_key.
  - intros db name description version pg _ F (Hg & Hp & Ha & Hv).
    split_and!; cbn; try done.
    apply NoDup_snoc_fresh; [done |]. apply filter_none_key. cbn.
    rewrite <- F. apply list_filter_iff. intros r. symmetry. apply product_key_iff.
  - intros db name display_name description product _ F (Hg & Hp & Ha & Hv).
    split_and!; cbn; try done.
    apply NoDup_snoc_fresh; [done |]. apply filter_none_key. cbn.
    rewrite <- F. apply list_filter_iff. intros r. symmetry. apply arch_key_iff.
  - intros db name description build_config architecture _ F (Hg & Hp & Ha & Hv).
    split_and!; cbn; try done.
    apply NoDup_snoc_fresh; [done |]. by apply filter_none_key.
Qed.

(** X3: a run never puts a second row under a lookup key of the engine: on a
    store with one group per name, one product per name and group, one
    architecture per product and name and one variant per architecture,
    the committed store is again such a store.  In particular the unique
    constraint on group names is never violated by the engine. *)
Theorem run_keeps_keys_unique blacklist config db :
  keys_unique db → keys_unique (bootstrap blacklist config db).1.2.
Proof.
  intros Hu. unfold bootstrap.
  pose proof (keys_unique_run blacklist config
                {| session := db; counters := zero_stats |} Hu) as Hrun.
  by destruct (process_product_groups _ _ _) as [[u | e] s'].
Qed.

Lemma run_keeps_keys_unique_witness :
  keys_unique (bootstrap (init_blacklist None) Examples.rocky
                 Examples.one_group).1.2.
Proof.
  apply run_keeps_keys_unique.
  repeat split; apply (bool_decide_unpack _); vm_compute; exact I.
Defined.

Lemma ids_unique_run blacklist config s :
  ids_unique (session s) →
  ids_unique (session (process_product_groups blacklist config s).2).
Proof.
  apply (invariant_run ids_unique).
  - intros db name description _ (Hg & Hp & Ha & Hv & Hx).
    split_and!; cbn; try done.
    apply NoDup_snoc_fresh; [done | apply next_id_not_used].
  - intros db name description version pg _ _ (Hg & Hp & Ha & Hv & Hx).
    split_and!; cbn; try done.
    apply NoDup_snoc_fresh; [done | apply next_id_not_used].
  - intros db name display_name description product _ _ (Hg & Hp & Ha & Hv & Hx).
    split_and!; cbn; try done.
    apply NoDup_snoc_fresh; [done | apply next_id_not_used].
  - intros db name description build_config architecture _ _
      (Hg & Hp & Ha & Hv & Hx).
    split_and!; cbn; try done.
    apply NoDup_snoc_fresh; [done | apply next_id_not_used].
Qed.

Lemma elem_of_map_app_l {A K} (f : A → K) k T T' :
  k ∈ map f T → k ∈ map f (T ++ T').
Proof. rewrite map_app. intros H. apply elem_of_app. by left. Qed.

Lemma references_hold_run blacklist config s :
  references_hold (session s) →
  references_hold (session (process_product_groups blacklist config s).2).
Proof.
  apply (invariant_run references_hold).
  - intros db name description _ (Hp & Ha & Hv & Hx).
    split_and!; cbn; try done.
    intros p Hin. by apply elem_of_map_app_l, Hp.
  - intros db name description version pg Hpg _ (Hp & Ha & Hv & Hx).
    split_and!; cbn; try done.
    + intros p Hin. apply elem_of_app in Hin as [Hin | Hin]; [by apply Hp |].
      apply list_elem_of_singleton in Hin as ->. cbn.
      apply list_elem_of_fmap. by exists pg.
    + intros a Hin. by apply elem_of_map_app_l, Ha.
  - intros db name display_name description product Hproduct _
      (Hp & Ha & Hv & Hx).
    split_and!; cbn; try done.
    + intros a Hin. apply elem_of_app in Hin as [Hin | Hin]; [by apply Ha |].
      apply list_elem_of_singleton in Hin as ->. cbn.
      apply list_elem_of_fmap. by exists product.
    + intros v Hin. by apply elem_of_map_app_l, Hv.
  - intros db name description build_config architecture Harch _
      (Hp & Ha & Hv & Hx).
    split_and!; cbn; try done.
    + intros v Hin. apply elem_of_app in Hin as [Hin | Hin]; [by apply Hv |].
      apply list_elem_of_singleton in Hin as ->. cbn.
      apply list_elem_of_fmap. by exists architecture.
    + intros x Hin. by apply elem_of_map_app_l, Hx.
Qed.

(** X4: a run keeps the ids of every table distinct and every foreign key on a
    row of its parent table: what it commits on a store with these two
    properties has them too. *)
Theorem run_keeps_ids_and_references blacklist config db :
  ids_unique db → references_hold db →
  ids_unique (bootstrap blacklist config db).1.2 ∧
  references_hold (bootstrap blacklist config db).1.2.
Proof.
  intros Hi Hr. unfold bootstrap.
  pose proof (ids_unique_run blacklist config
                {| session := db; counters := zero_stats |} Hi) as Hrun1.
  pose proof (references_hold_run blacklist config
                {| session := db; counters := zero_stats |} Hr) as Hrun2.
  by destruct (process_product_groups _ _ _) as [[u | e] s'].
Qed.

Lemma run_keeps_ids_and_references_witness :
  ids_unique (bootstrap (init_blacklist None) Examples.rocky
                Examples.one_group).1.2 ∧
  references_hold (bootstrap (init_blacklist None) Examples.rocky
                     Examples.one_group).1.2.
Proof.
  apply run_keeps_ids_and_references.
  - repeat split; apply (bool_decide_unpack _); vm_compute; exact I.
  - repeat split; intros x Hx; by apply elem_of_nil in Hx.
Defined.

(** *** Well-formed configurations import without an error *)





















(** *** The preview and the run *)


















(* ===================================================================== *)
(** ** Further properties of the REST handlers *)
(** *** Lookups by id *)

Lemma scalar_one_found {A} (rows : list A) row :
  scalar_one_or_none rows = Ok (Some row) → rows = [row].
Proof. destruct rows as [|r [|r' rows]]; cbn; congruence. Qed.

Lemma by_id_found {A} (column : A → Z) id rows row :
  by_id column id rows = Ok (Some row) →
  filter (λ r, column r = id) rows = [row] ∧ row ∈ rows ∧ column row = id.
Proof.
  unfold by_id. intros E. apply scalar_one_found in E.
  assert (row ∈ filter (λ r, column r = id) rows) as Hin
    by (rewrite E; apply list_elem_of_singleton; done).
  apply list_elem_of_filter in Hin as [? ?]. done.
Qed.

Lemma by_id_none {A} (column : A → Z) id rows :
  by_id column id rows = Ok None → id ∉ map column rows.
Proof.
  unfold by_id. intros E Hin.
  apply list_elem_of_fmap in Hin as (r & -> & Hr).
  destruct (filter _ rows) as [|r1 [|r2 l]] eqn:Hf; try done.
  assert (r ∈ filter (λ r0, column r0 = column r) rows) as Hin
    by (by apply list_elem_of_filter).
  rewrite Hf in Hin. by apply elem_of_nil in Hin.
Qed.

Lemma filter_unique {A} (column : A → Z) rows row :
  NoDup (map column rows) → row ∈ rows →
  filter (λ r, column r = column row) rows = [row].
Proof.
  induction rows as [|r rows IH]; intros Hnd Hin; [by apply elem_of_nil in Hin |].
  cbn [map] in Hnd. apply list.NoDup_cons in Hnd as [Hr Hnd].
  rewrite filter_cons. apply elem_of_cons in Hin as [-> | Hin].
  - rewrite decide_True by done. f_equal.
    apply filter_none. intros r' Hr' Heq. apply Hr.
    rewrite <- Heq. apply list_elem_of_fmap. by exists r'.
  - rewrite decide_False; [by apply IH |].
    intros Heq. apply Hr. rewrite Heq. apply list_elem_of_fmap. by exists row.
Qed.

Lemma by_id_unique {A} (column : A → Z) rows row :
  NoDup (map column rows) → row ∈ rows →
  by_id column (column row) rows = Ok (Some row).
Proof. intros Hnd Hin. unfold by_id. by rewrite filter_unique. Qed.

Lemma by_id_snoc {A} (column : A → Z) id rows row :
  column row ∉ map column rows →
  by_id column id (rows ++ [row])
  = if decide (id = column row) then Ok (Some row) else by_id column id rows.
Proof.
  intros Hfresh. unfold by_id. rewrite list.filter_app, filter_cons, filter_nil.
  destruct (decide (id = column row)) as [-> | Hne].
  - rewrite decide_True by done.
    rewrite (proj2 (filter_none (λ r, column r = column row) rows)); [done |].
    intros r Hr Heq. apply Hfresh. rewrite <- Heq.
    apply list_elem_of_fmap. by exists r.
  - rewrite decide_False by done. by rewrite app_nil_r.
Qed.


(** *** Create, then read *)

Lemma with_parent_created {P A} (parent : result (option P)) detail db
    (add : A * store) r db' :
  with_parent parent detail db add = (Success 201 r, db') →
  r = add.1 ∧ db' = add.2 ∧ ∃ p, parent = Ok (Some p).
Proof.
  unfold with_parent, created.
  destruct parent as [[p |] | e]; intros [= <- <-]. eauto.
Qed.



(** *** Ids and references under the handlers *)

Lemma NoDup_map_filter {A K} (f : A → K) (P : A → Prop)
    `{∀ x, Decision (P x)} rows :
  NoDup (map f rows) → NoDup (map f (filter P rows)).
Proof.
  intros Hnd. eapply sublist_NoDup; [exact Hnd |].
  apply (fmap_sublist f), sublist_filter.
Qed.

Lemma NoDup_map_inj {A K} (f : A → K) rows x y :
  NoDup (map f rows) → x ∈ rows → y ∈ rows → f x = f y → x = y.
Proof.
  induction rows as [|r rows IH]; intros Hnd Hx Hy Heq;
    [by apply elem_of_nil in Hx |].
  cbn [map] in Hnd. apply list.NoDup_cons in Hnd as [Hr Hnd].
  apply elem_of_cons in Hx as [-> | Hx]; apply elem_of_cons in Hy as [-> | Hy].
  - done.
  - exfalso. apply Hr. rewrite Heq. apply list_elem_of_fmap. by exists y.
  - exfalso. apply Hr. rewrite <- Heq. apply list_elem_of_fmap. by exists x.
  - by apply IH.
Qed.

Lemma consistent_create_product_group x db :
  consistent db → consistent (create_product_group x db).2.
Proof.
  intros [(Hg & Hp & Ha & Hv & Hx) (Rp & Ra & Rv & Rx)].
  unfold create_product_group.
  destruct (scalar_one_or_none _) as [[p |] | e]; try done.
  split; split_and!; cbn; try done.
  - apply NoDup_snoc_fresh; [done | apply next_id_not_used].
  - intros p Hin. by apply elem_of_map_app_l, Rp.
Qed.

Lemma with_parent_cases {P A} (parent : result (option P)) detail db
    (add : A * store) :
  (with_parent parent detail db add).2 = db ∨
  ∃ p, parent = Ok (Some p) ∧ (with_parent parent detail db add).2 = add.2.
Proof. destruct parent as [[p |] | e]; cbn; eauto. Qed.

Lemma consistent_create_product x db :
  consistent db → consistent (create_product x db).2.
Proof.
  intros Hc. unfold create_product.
  destruct (with_parent_cases
              (by_id pg_id (pc_product_group_id x) (product_groups db))
              "Product group not found" db
              (add_product db (pc_name x) (pc_description x) (pc_version x)
                 (pc_product_group_id x))) as [-> | (pg & Hpg & ->)]; [done |].
  apply by_id_found in Hpg as (_ & Hin & Hid).
  destruct Hc as [(Hg & Hp & Ha & Hv & Hx) (Rp & Ra & Rv & Rx)].
  split; split_and!; cbn; try done.
  - apply NoDup_snoc_fresh; [done | apply next_id_not_used].
  - intros p Hp'. apply elem_of_app in Hp' as [Hp' | Hp']; [by apply Rp |].
    apply list_elem_of_singleton in Hp' as ->. cbn.
    apply list_elem_of_fmap. by exists pg.
  - intros a Ha'. by apply elem_of_map_app_l, Ra.
Qed.

Lemma consistent_create_architecture x db :
  consistent db → consistent (create_architecture x db).2.
Proof.
  intros Hc. unfold create_architecture.
  destruct (with_parent_cases
              (by_id p_id (ac_product_id x) (products db))
              "Product not found" db
              (add_architecture db (ac_name x) (ac_display_name x)
                 (ac_description x) (ac_product_id x)))
    as [-> | (p & Hfound & ->)]; [done |].
  apply by_id_found in Hfound as (_ & Hin & Hid).
  destruct Hc as [(Hg & Hp & Ha & Hv & Hx) (Rp & Ra & Rv & Rx)].
  split; split_and!; cbn; try done.
  - apply NoDup_snoc_fresh; [done | apply next_id_not_used].
  - intros a Ha'. apply elem_of_app in Ha' as [Ha' | Ha']; [by apply Ra |].
    apply list_elem_of_singleton in Ha' as ->. cbn.
    apply list_elem_of_fmap. by exists p.
  - intros v Hv'. by apply elem_of_map_app_l, Rv.
Qed.

Lemma consistent_create_variant x db :
  consistent db → consistent (create_variant x db).2.
Proof.
  intros Hc. unfold create_variant.
  destruct (with_parent_cases
              (by_id a_id (vc_architecture_id x) (architectures db))
              "Architecture not found" db
              (add_variant db (vc_name x) (vc_description x)
                 (vc_build_config x) (vc_architecture_id x)))
    as [-> | (a & Hfound & ->)]; [done |].
  apply by_id_found in Hfound as (_ & Hin & Hid).
  destruct Hc as [(Hg & Hp & Ha & Hv & Hx) (Rp & Ra & Rv & Rx)].
  split; split_and!; cbn; try done.
  - apply NoDup_snoc_fresh; [done | apply next_id_not_used].
  - intros v Hv'. apply elem_of_app in Hv' as [Hv' | Hv']; [by apply Rv |].
    apply list_elem_of_singleton in Hv' as ->. cbn.
    apply list_elem_of_fmap. by exists a.
  - intros y Hy. by apply elem_of_map_app_l, Rx.
Qed.

Lemma consistent_create_artifact x db :
  consistent db → consistent (create_artifact x db).2.
Proof.
  intros Hc. unfold create_artifact.
  destruct (with_parent_cases
              (by_id v_id (artc_variant_id x) (variants db))
              "Variant not found" db (add_artifact db x))
    as [-> | (v & Hfound & ->)]; [done |].
  apply by_id_found in Hfound as (_ & Hin & Hid).
  destruct Hc as [(Hg & Hp & Ha & Hv & Hx) (Rp & Ra & Rv & Rx)].
  split; split_and!; cbn; try done.
  - apply NoDup_snoc_fresh; [done | apply next_id_not_used].
  - intros y Hy. apply elem_of_app in Hy as [Hy | Hy]; [by apply Rx |].
    apply list_elem_of_singleton in Hy as ->. cbn.
    apply list_elem_of_fmap. by exists v.
Qed.

(** X9: whatever a create handler is sent and whatever it answers, a store with
    distinct ids and no dangling foreign key is left as such a store. *)
Theorem creates_keep_the_store_consistent db :
  consistent db →
  (∀ x, consistent (create_product_group x db).2) ∧
  (∀ x, consistent (create_product x db).2) ∧
  (∀ x, consistent (create_architecture x db).2) ∧
  (∀ x, consistent (create_variant x db).2) ∧
  (∀ x, consistent (create_artifact x db).2).
Proof.
  intros Hc. split_and!; intros x.
  - by apply consistent_create_product_group.
  - by apply consistent_create_product.
  - by apply consistent_create_architecture.
  - by apply consistent_create_variant.
  - by apply consistent_create_artifact.
Qed.

Lemma creates_keep_the_store_consistent_witness :
  consistent
    (create_product_group {| pgc_name := "Rocky"; pgc_description := None |}
       (empty_store 0)).2.
Proof.
  refine (proj1 (creates_keep_the_store_consistent (empty_store 0) _) _).
  split; [repeat split; apply NoDup_nil_2 |].
  repeat split; intros x Hx; by apply elem_of_nil in Hx.
Defined.

Lemma cascade_step {P C} (pid : P → Z) (fk : C → Z) (doomed : P → Prop)
    `{∀ r, Decision (doomed r)} (parents : list P) (children : list C) c :
  (∀ c, c ∈ children → fk c ∈ map pid parents) →
  c ∈ filter (λ c, ¬ fk c ∈ map pid (filter doomed parents)) children →
  fk c ∈ map pid (filter (λ r, ¬ doomed r) parents).
Proof.
  intros Href Hc. apply list_elem_of_filter in Hc as [Hgone Hc].
  specialize (Href c Hc). apply list_elem_of_fmap in Href as (p & Heq & Hp).
  apply list_elem_of_fmap. exists p. split; [exact Heq |].
  apply list_elem_of_filter. split; [| done].
  intros Hd. apply Hgone. apply list_elem_of_fmap. exists p.
  split; [exact Heq |]. by apply list_elem_of_filter.
Qed.

Lemma filter_kept {A} (P : A → Prop) `{∀ x, Decision (P x)} (rows : list A) x :
  x ∈ filter P rows → x ∈ rows.
Proof. intros Hin. by apply list_elem_of_filter in Hin as [_ ?]. Qed.

Lemma consistent_delete_artifacts (doomed : Artifact → Prop)
    `{∀ r, Decision (doomed r)} db :
  consistent db → consistent (delete_artifacts doomed db).
Proof.
  intros [(Hg & Hp & Ha & Hv & Hx) (Rp & Ra & Rv & Rx)].
  split; split_and!; cbn; try done.
  - by apply NoDup_map_filter.
  - intros x Hin. apply Rx. by eapply filter_kept.
Qed.

Lemma consistent_delete_variants (doomed : Variant → Prop)
    `{∀ r, Decision (doomed r)} db :
  consistent db → consistent (delete_variants doomed db).
Proof.
  intros [(Hg & Hp & Ha & Hv & Hx) (Rp & Ra & Rv & Rx)].
  split; split_and!; cbn; try done.
  - by apply NoDup_map_filter.
  - by apply NoDup_map_filter.
  - intros v Hin. apply Rv. by eapply filter_kept.
  - intros x Hin.
    exact (cascade_step v_id art_variant_id doomed _ _ x Rx Hin).
Qed.

Lemma consistent_delete_architectures (doomed : Architecture → Prop)
    `{∀ r, Decision (doomed r)} db :
  consistent db → consistent (delete_architectures doomed db).
Proof.
  intros Hc.
  pose proof (consistent_delete_variants
                (λ r, v_architecture_id r
                      ∈ map a_id (filter doomed (architectures db))) db Hc)
    as [(Hg & Hp & Ha & Hv & Hx) (Rp & Ra & Rv & Rx)].
  destruct Hc as [_ (_ & _ & Rv0 & _)].
  cbn in *. split; split_and!; cbn; try done.
  - by apply NoDup_map_filter.
  - intros a Hin. apply Ra. by eapply filter_kept.
  - intros v Hin.
    exact (cascade_step a_id v_architecture_id doomed _ _ v Rv0 Hin).
Qed.

Lemma consistent_delete_products (doomed : Product → Prop)
    `{∀ r, Decision (doomed r)} db :
  consistent db → consistent (delete_products doomed db).
Proof.
  intros Hc.
  pose proof (consistent_delete_architectures
                (λ r, a_product_id r ∈ map p_id (filter doomed (products db)))
                db Hc)
    as [(Hg & Hp & Ha & Hv & Hx) (Rp & Ra & Rv & Rx)].
  destruct Hc as [_ (_ & Ra0 & _ & _)].
  cbn in *. split; split_and!; cbn; try done.
  - by apply NoDup_map_filter.
  - intros p Hin. apply Rp. by eapply filter_kept.
  - intros a Hin.
    exact (cascade_step p_id a_product_id doomed _ _ a Ra0 Hin).
Qed.

Lemma consistent_delete_product_groups (doomed : ProductGroup → Prop)
    `{∀ r, Decision (doomed r)} db :
  consistent db → consistent (delete_product_groups doomed db).
Proof.
  intros Hc.
  pose proof (consistent_delete_products
                (λ r, p_product_group_id r
                      ∈ map pg_id (filter doomed (product_groups db))) db Hc)
    as [(Hg & Hp & Ha & Hv & Hx) (Rp & Ra & Rv & Rx)].
  destruct Hc as [_ (Rp0 & _ & _ & _)].
  cbn in *. split; split_and!; cbn; try done.
  - by apply NoDup_map_filter.
  - intros p Hin.
    exact (cascade_step pg_id p_product_group_id doomed _ _ p Rp0 Hin).
Qed.

Lemma deleted_cases {A} (found : result (option A)) missing message
    (remove : A → store) db :
  (deleted found missing message remove db).2 = db ∨
  ∃ row, found = Ok (Some row) ∧
         deleted found missing message remove db
         = (Success 200 message, remove row).
Proof. destruct found as [[row |] | e]; cbn; eauto. Qed.

(** X10: whatever id a delete handler is sent and whatever it answers, a store
    with distinct ids and no dangling foreign key is left as such a store:
    the cascade takes every row that would be left without its parent. *)
Theorem deletes_keep_the_store_consistent db :
  consistent db →
  (∀ id, consistent (delete_product_group id db).2) ∧
  (∀ id, consistent (delete_product id db).2) ∧
  (∀ id, consistent (delete_architecture id db).2) ∧
  (∀ id, consistent (delete_variant id db).2) ∧
  (∀ id, consistent (delete_artifact id db).2).
Proof.
  intros Hc. split_and!; intros id.
  - unfold delete_product_group.
    destruct (deleted_cases (by_id pg_id id (product_groups db))
                "Product group not found" "Product group deleted successfully"
                (λ row, delete_product_groups (λ r, pg_id r = pg_id row) db) db)
      as [-> | (row & _ & ->)]; [done |].
    by apply consistent_delete_product_groups.
  - unfold delete_product.
    destruct (deleted_cases (by_id p_id id (products db))
                "Product not found" "Product deleted successfully"
                (λ row, delete_products (λ r, p_id r = p_id row) db) db)
      as [-> | (row & _ & ->)]; [done |].
    by apply consistent_delete_products.
  - unfold delete_architecture.
    destruct (deleted_cases (by_id a_id id (architectures db))
                "Architecture not found" "Architecture deleted successfully"
                (λ row, delete_architectures (λ r, a_id r = a_id row) db) db)
      as [-> | (row & _ & ->)]; [done |].
    by apply consistent_delete_architectures.
  - unfold delete_variant.
    destruct (deleted_cases (by_id v_id id (variants db))
                "Variant not found" "Variant deleted successfully"
                (λ row, delete_variants (λ r, v_id r = v_id row) db) db)
      as [-> | (row & _ & ->)]; [done |].
    by apply consistent_delete_variants.
  - unfold delete_artifact.
    destruct (deleted_cases (by_id art_id id (artifacts db))
                "Artifact not found" "Artifact deleted successfully"
                (λ row, delete_artifacts (λ r, art_id r = art_id row) db) db)
      as [-> | (row & _ & ->)]; [done |].
    by apply consistent_delete_artifacts.
Qed.

Lemma deletes_keep_the_store_consistent_witness :
  consistent (delete_product_group 1 Examples.full_tree).2.
Proof.
  refine (proj1 (deletes_keep_the_store_consistent Examples.full_tree _) 1).
  split.
  - repeat split; apply (bool_decide_unpack _); vm_compute; exact I.
  - repeat split; apply list.Forall_forall; apply (bool_decide_unpack _);
      vm_compute; exact I.
Defined.

(** *** What a delete of a group takes with it *)

Lemma elem_of_gone {A} (column : A → Z) (doomed : A → Prop)
    `{∀ r, Decision (doomed r)} (rows : list A) k :
  k ∈ map column (filter doomed rows)
  ↔ ∃ r, r ∈ rows ∧ doomed r ∧ k = column r.
Proof.
  rewrite list_elem_of_fmap. split.
  - intros (r & -> & Hr). apply list_elem_of_filter in Hr as [? ?]. eauto.
  - intros (r & Hr & Hd & ->). exists r. split; [done |].
    by apply list_elem_of_filter.
Qed.

Lemma gone_is_not_found {A} (column : A → Z) (rows rows' : list A)
    (below : A → Prop) detail r :
  NoDup (map column rows) →
  (∀ x, x ∈ rows' ↔ x ∈ rows ∧ ¬ below x) →
  r ∈ rows → below r →
  get_or_404 (by_id column (column r) rows') detail = HTTPException 404 detail.
Proof.
  intros Hnd Hrows Hr Hbelow. rewrite by_id_absent; [done |].
  intros Hin. apply list_elem_of_fmap in Hin as (r' & Heq & Hr').
  apply Hrows in Hr' as [Hr' Hnot]. apply Hnot.
  by rewrite <- (NoDup_map_inj column rows r r' Hnd Hr Hr' Heq).
Qed.

(** X11: after a delete of a group answered with 200, a read of the group
    answers 404; each table holds the rows it held that are not below the
    group, and no other; and when ids are distinct, a read of any row that
    was below the group answers 404. *)
Theorem delete_product_group_cascades db id message db' :
  delete_product_group id db = (Success 200 message, db') →
  get_product_group id db' = HTTPException 404 "Product group not found" ∧
  (∀ g, g ∈ product_groups db' ↔ g ∈ product_groups db ∧ pg_id g ≠ id) ∧
  (∀ p, p ∈ products db' ↔ p ∈ products db ∧ ¬ product_below id p) ∧
  (∀ a, a ∈ architectures db'
        ↔ a ∈ architectures db ∧ ¬ architecture_below id db a) ∧
  (∀ v, v ∈ variants db' ↔ v ∈ variants db ∧ ¬ variant_below id db v) ∧
  (∀ x, x ∈ artifacts db' ↔ x ∈ artifacts db ∧ ¬ artifact_below id db x) ∧
  (ids_unique db →
   (∀ p, p ∈ products db → product_below id p →
         get_product (p_id p) db' = HTTPException 404 "Product not found") ∧
   (∀ a, a ∈ architectures db → architecture_below id db a →
         get_architecture (a_id a) db'
         = HTTPException 404 "Architecture not found") ∧
   (∀ v, v ∈ variants db → variant_below id db v →
         get_variant (v_id v) db' = HTTPException 404 "Variant not found") ∧
   (∀ x, x ∈ artifacts db → artifact_below id db x →
         get_artifact (art_id x) db'
         = HTTPException 404 "Artifact not found")).
Proof.
  unfold delete_product_group, deleted. intros E.
  destruct (by_id pg_id id (product_groups db)) as [[row |] | e] eqn:Hfound;
    try done.
  injection E as _ <-.
  apply by_id_found in Hfound as (_ & Hrow & Hid).
  assert (∀ k, k ∈ map pg_id (filter (λ r, pg_id r = pg_id row)
                                     (product_groups db)) ↔ k = id) as Hgone.
  { intros k. rewrite elem_of_gone. split.
    - intros (r & _ & Hr & ->). congruence.
    - intros ->. by exists row. }
  assert (∀ g, g ∈ product_groups
                     (delete_product_groups (λ r, pg_id r = pg_id row) db)
               ↔ g ∈ product_groups db ∧ pg_id g ≠ id) as Hg.
  { intros g. cbn. rewrite list_elem_of_filter, Hid. tauto. }
  assert (∀ p, p ∈ products
                     (delete_product_groups (λ r, pg_id r = pg_id row) db)
               ↔ p ∈ products db ∧ ¬ product_below id p) as Hp.
  { intros p. cbn. rewrite list_elem_of_filter, Hgone.
    unfold product_below. tauto. }
  assert (∀ k, k ∈ map p_id
                     (filter (λ r, p_product_group_id r
                                   ∈ map pg_id
                                       (filter (λ r0, pg_id r0 = pg_id row)
                                               (product_groups db)))
                             (products db))
               ↔ ∃ p, p ∈ products db ∧ product_below id p ∧ k = p_id p)
    as Hgone_p.
  { intros k. rewrite elem_of_gone. unfold product_below.
    split; intros (p & Hin & Hb & ->); exists p; split_and!; try done;
      by apply Hgone. }
  assert (∀ a, a ∈ architectures
                     (delete_product_groups (λ r, pg_id r = pg_id row) db)
               ↔ a ∈ architectures db ∧ ¬ architecture_below id db a) as Ha.
  { intros a. cbn. rewrite list_elem_of_filter, Hgone_p.
    unfold architecture_below. tauto. }
  assert (∀ k, k ∈ map a_id
                     (filter (λ r, a_product_id r
                                   ∈ map p_id
                                       (filter
                                          (λ r0, p_product_group_id r0
                                                 ∈ map pg_id
                                                     (filter
                                                        (λ r1, pg_id r1 = pg_id row)
                                                        (product_groups db)))
                                          (products db)))
                             (architectures db))
               ↔ ∃ a, a ∈ architectures db ∧ architecture_below id db a
                      ∧ k = a_id a)
    as Hgone_a.
  { intros k. rewrite elem_of_gone. unfold architecture_below.
    split; intros (a & Hin & Hb & ->); exists a; split_and!; try done;
      by apply Hgone_p. }
  assert (∀ v, v ∈ variants
                     (delete_product_groups (λ r, pg_id r = pg_id row) db)
               ↔ v ∈ variants db ∧ ¬ variant_below id db v) as Hv.
  { intros v. cbn. rewrite list_elem_of_filter, Hgone_a.
    unfold variant_below. tauto. }
  assert (∀ x, x ∈ artifacts
                     (delete_product_groups (λ r, pg_id r = pg_id row) db)
               ↔ x ∈ artifacts db ∧ ¬ artifact_below id db x) as Hx.
  { intros x. cbn. rewrite list_elem_of_filter, elem_of_gone.
    unfold artifact_below. split.
    - intros [Hnot Hin]. split; [done |]. intros (v & Hvin & Hb & Heq).
      apply Hnot. exists v. split_and!; try done. by apply Hgone_a.
    - intros [Hin Hnot]. split; [| done]. intros (v & Hvin & Hb & Heq).
      apply Hnot. exists v. split_and!; try done. by apply Hgone_a. }
  split_and!; try done.
  - unfold get_product_group. rewrite by_id_absent; [done |].
    intros Hin. apply list_elem_of_fmap in Hin as (g & Heq & Hin).
    apply Hg in Hin as [_ Hne]. by apply Hne.
  - intros (Ug & Up & Ua & Uv & Ux). split_and!.
    + intros p Hin Hb. unfold get_product.
      by eapply (gone_is_not_found p_id (products db)).
    + intros a Hin Hb. unfold get_architecture.
      by eapply (gone_is_not_found a_id (architectures db)).
    + intros v Hin Hb. unfold get_variant.
      by eapply (gone_is_not_found v_id (variants db)).
    + intros x Hin Hb. unfold get_artifact.
      by eapply (gone_is_not_found art_id (artifacts db)).
Qed.

Lemma delete_product_group_cascades_witness :
  ∃ db',
    delete_product_group 1 Examples.full_tree
    = (Success 200 "Product group deleted successfully", db') ∧
    get_product_group 1 db' = HTTPException 404 "Product group not found".
Proof.
  edestruct (delete_product_group_cascades Examples.full_tree 1) as [Hget _];
    [vm_compute; reflexivity |].
  eexists. split; [vm_compute; reflexivity | exact Hget].
Defined.

(** *** Updates *)

Lemma updated_cases {A} (found : result (option A)) missing
    (parent : result bool) orphan (patch : A → option A)
    (replace : A → store) db :
  (updated found missing parent orphan patch replace db).2 = db ∨
  ∃ row row', found = Ok (Some row) ∧ parent = Ok true ∧
              patch row = Some row' ∧
              updated found missing parent orphan patch replace db
              = (Success 200 row', replace row').
Proof.
  unfold updated. destruct found as [[row |] | e]; cbn; eauto.
  destruct parent as [[] | e]; cbn; eauto.
  destruct (patch row) as [row' |] eqn:Hpatch; cbn; eauto 10.
Qed.

Lemma updated_success {A} (found : result (option A)) missing
    (parent : result bool) orphan (patch : A → option A)
    (replace : A → store) db code r db' :
  updated found missing parent orphan patch replace db = (Success code r, db') →
  ∃ row, found = Ok (Some row) ∧ parent = Ok true ∧ patch row = Some r ∧
         db' = replace r.
Proof.
  unfold updated. destruct found as [[row |] | e]; try done.
  destruct parent as [[] | e]; try done.
  destruct (patch row) as [row' |] eqn:Hpatch; try done.
  intros [= _ <- <-]. eauto.
Qed.

Lemma map_replace_column {A} (column : A → Z) (rows : list A) row :
  map column (map (λ r, if decide (column r = column row) then row else r) rows)
  = map column rows.
Proof.
  induction rows as [|r rows IH]; [done |]. cbn [map]. rewrite IH. f_equal.
  by destruct (decide (column r = column row)).
Qed.

Lemma elem_of_replace {A} (column : A → Z) (rows : list A) row x :
  x ∈ map (λ r, if decide (column r = column row) then row else r) rows →
  x = row ∨ x ∈ rows.
Proof.
  intros Hin. apply list_elem_of_fmap in Hin as (r & -> & Hr).
  destruct (decide (column r = column row)); auto.
Qed.

Lemma parent_of_update_found {P} (column : P → Z) supplied (rows : list P)
    old new :
  parent_of_update column supplied rows = Ok true →
  old ∈ map column rows → set_required old supplied = Some new →
  new ∈ map column rows.
Proof.
  unfold parent_of_update, set_required.
  destruct supplied as [[i |] |]; cbn; try done.
  - destruct (by_id column i rows) as [[p |] | e] eqn:Hfound; try done.
    intros _ _ [= <-]. apply by_id_found in Hfound as (_ & Hin & <-).
    apply list_elem_of_fmap. by exists p.
  - by intros _ ? [= <-].
Qed.

Lemma patch_product_inv upd t row row' :
  patch_product upd t row = Some row' →
  p_id row' = p_id row ∧ p_created_at row' = p_created_at row ∧
  set_required (p_product_group_id row) (pu_product_group_id upd)
  = Some (p_product_group_id row').
Proof.
  unfold patch_product.
  destruct (set_required (p_name row) _) as [name |]; [| done].
  destruct (set_required (p_product_group_id row) _) as [parent |]; [| done].
  by intros [= <-].
Qed.

Lemma patch_architecture_inv upd t row row' :
  patch_architecture upd t row = Some row' →
  a_id row' = a_id row ∧ a_created_at row' = a_created_at row ∧
  set_required (a_product_id row) (au_product_id upd)
  = Some (a_product_id row').
Proof.
  unfold patch_architecture.
  destruct (set_required (a_name row) _) as [name |]; [| done].
  destruct (set_required (a_product_id row) _) as [parent |]; [| done].
  by intros [= <-].
Qed.

Lemma patch_variant_inv upd t row row' :
  patch_variant upd t row = Some row' →
  v_id row' = v_id row ∧ v_created_at row' = v_created_at row ∧
  set_required (v_architecture_id row) (vu_architecture_id upd)
  = Some (v_architecture_id row').
Proof.
  unfold patch_variant.
  destruct (set_required (v_name row) _) as [name |]; [| done].
  destruct (set_required (v_architecture_id row) _) as [parent |]; [| done].
  by intros [= <-].
Qed.

Lemma patch_artifact_inv upd t row row' :
  patch_artifact upd t row = Some row' →
  art_id row' = art_id row ∧ art_created_at row' = art_created_at row ∧
  set_required (art_variant_id row) (artu_variant_id upd)
  = Some (art_variant_id row').
Proof.
  unfold patch_artifact.
  destruct (set_required (art_name row) _) as [name |]; [| done].
  destruct (set_required (art_artifact_type row) _) as [ty |]; [| done].
  destruct (set_required (art_status row) _) as [st |]; [| done].
  destruct (set_required (art_variant_id row) _) as [parent |]; [| done].
  by intros [= <-].
Qed.

Lemma update_product_group_success id upd db code r db' :
  update_product_group id upd db = (Success code r, db') →
  ∃ row name, by_id pg_id id (product_groups db) = Ok (Some row) ∧
              name_conflict upd row db = Ok None ∧
              default (Some (pg_name row)) (pgu_name upd) = Some name ∧
              r = patch_product_group upd (now db) name row ∧
              db' = replace_product_group db r.
Proof.
  unfold update_product_group.
  destruct (by_id pg_id id (product_groups db)) as [[row |] | e]; try done.
  destruct (name_conflict upd row db) as [[other |] | e] eqn:Hconflict;
    try done.
  destruct (default _ _) as [name |] eqn:Hname; try done.
  intros [= _ <- <-]. by exists row, name.
Qed.

Lemma update_product_group_cases id upd db :
  (update_product_group id upd db).2 = db ∨
  ∃ r, update_product_group id upd db
       = (Success 200 r, replace_product_group db r).
Proof.
  unfold update_product_group.
  destruct (by_id pg_id id (product_groups db)) as [[row |] | e]; auto.
  destruct (name_conflict upd row db) as [[other |] | e]; auto.
  destruct (default _ _) as [name |]; eauto.
Qed.

Lemma consistent_update_product_group id upd db :
  consistent db → consistent (update_product_group id upd db).2.
Proof.
  intros Hc.
  destruct (update_product_group_cases id upd db) as [-> | (r & E)]; [done |].
  rewrite E. apply update_product_group_success in E
    as (row & name & Hfound & _ & _ & -> & _).
  destruct Hc as [(Hg & Hp & Ha & Hv & Hx) (Rp & Ra & Rv & Rx)].
  split; split_and!;
    cbn [snd replace_product_group product_groups products architectures
         variants artifacts]; try done.
  - by rewrite (map_replace_column pg_id).
  - intros p Hin. rewrite (map_replace_column pg_id). by apply Rp.
Qed.

Lemma consistent_update_product id upd db :
  consistent db → consistent (update_product id upd db).2.
Proof.
  intros Hc. unfold update_product.
  destruct (updated_cases (by_id p_id id (products db)) "Product not found"
              (parent_of_update pg_id (pu_product_group_id upd)
                 (product_groups db))
              "Product group not found" (patch_product upd (now db))
              (replace_product db) db)
    as [-> | (row & row' & Hfound & Hparent & Hpatch & ->)]; [done |].
  apply by_id_found in Hfound as (_ & Hrow & _).
  apply patch_product_inv in Hpatch as (Hid & _ & Hset).
  destruct Hc as [(Hg & Hp & Ha & Hv & Hx) (Rp & Ra & Rv & Rx)].
  split; split_and!;
    cbn [snd replace_product product_groups products architectures
         variants artifacts]; try done.
  - by rewrite (map_replace_column p_id).
  - intros p Hin. apply elem_of_replace in Hin as [-> | Hin]; [| by apply Rp].
    eapply parent_of_update_found; [exact Hparent | by apply Rp | exact Hset].
  - intros a Hin. rewrite (map_replace_column p_id). by apply Ra.
Qed.

Lemma consistent_update_architecture id upd db :
  consistent db → consistent (update_architecture id upd db).2.
Proof.
  intros Hc. unfold update_architecture.
  destruct (updated_cases (by_id a_id id (architectures db))
              "Architecture not found"
              (parent_of_update p_id (au_product_id upd) (products db))
              "Product not found" (patch_architecture upd (now db))
              (replace_architecture db) db)
    as [-> | (row & row' & Hfound & Hparent & Hpatch & ->)]; [done |].
  apply by_id_found in Hfound as (_ & Hrow & _).
  apply patch_architecture_inv in Hpatch as (Hid & _ & Hset).
  destruct Hc as [(Hg & Hp & Ha & Hv & Hx) (Rp & Ra & Rv & Rx)].
  split; split_and!;
    cbn [snd replace_architecture product_groups products architectures
         variants artifacts]; try done.
  - by rewrite (map_replace_column a_id).
  - intros a Hin. apply elem_of_replace in Hin as [-> | Hin]; [| by apply Ra].
    eapply parent_of_update_found; [exact Hparent | by apply Ra | exact Hset].
  - intros v Hin. rewrite (map_replace_column a_id). by apply Rv.
Qed.

Lemma consistent_update_variant id upd db :
  consistent db → consistent (update_variant id upd db).2.
Proof.
  intros Hc. unfold update_variant.
  destruct (updated_cases (by_id v_id id (variants db)) "Variant not found"
              (parent_of_update a_id (vu_architecture_id upd)
                 (architectures db))
              "Architecture not found" (patch_variant upd (now db))
              (replace_variant db) db)
    as [-> | (row & row' & Hfound & Hparent & Hpatch & ->)]; [done |].
  apply by_id_found in Hfound as (_ & Hrow & _).
  apply patch_variant_inv in Hpatch as (Hid & _ & Hset).
  destruct Hc as [(Hg & Hp & Ha & Hv & Hx) (Rp & Ra & Rv & Rx)].
  split; split_and!;
    cbn [snd replace_variant product_groups products architectures
         variants artifacts]; try done.
  - by rewrite (map_replace_column v_id).
  - intros v Hin. apply elem_of_replace in Hin as [-> | Hin]; [| by apply Rv].
    eapply parent_of_update_found; [exact Hparent | by apply Rv | exact Hset].
  - intros x Hin. rewrite (map_replace_column v_id). by apply Rx.
Qed.

Lemma consistent_update_artifact id upd db :
  consistent db → consistent (update_artifact id upd db).2.
Proof.
  intros Hc. unfold update_artifact.
  destruct (updated_cases (by_id art_id id (artifacts db)) "Artifact not found"
              (parent_of_update v_id (artu_variant_id upd) (variants db))
              "Variant not found" (patch_artifact upd (now db))
              (replace_artifact db) db)
    as [-> | (row & row' & Hfound & Hparent & Hpatch & ->)]; [done |].
  apply by_id_found in Hfound as (_ & Hrow & _).
  apply patch_artifact_inv in Hpatch as (Hid & _ & Hset).
  destruct Hc as [(Hg & Hp & Ha & Hv & Hx) (Rp & Ra & Rv & Rx)].
  split; split_and!;
    cbn [snd replace_artifact product_groups products architectures
         variants artifacts]; try done.
  - by rewrite (map_replace_column art_id).
  - intros x Hin. apply elem_of_replace in Hin as [-> | Hin]; [| by apply Rx].
    eapply parent_of_update_found; [exact Hparent | by apply Rx | exact Hset].
Qed.

(** X12: whatever an update handler is sent and whatever it answers, a store
    with distinct ids and no dangling foreign key is left as such a store:
    no id changes, and a parent id is stored only once its row is found. *)
Theorem updates_keep_the_store_consistent db :
  consistent db →
  (∀ id upd, consistent (update_product_group id upd db).2) ∧
  (∀ id upd, consistent (update_product id upd db).2) ∧
  (∀ id upd, consistent (update_architecture id upd db).2) ∧
  (∀ id upd, consistent (update_variant id upd db).2) ∧
  (∀ id upd, consistent (update_artifact id upd db).2).
Proof.
  intros Hc. split_and!; intros id upd.
  - by apply consistent_update_product_group.
  - by apply consistent_update_product.
  - by apply consistent_update_architecture.
  - by apply consistent_update_variant.
  - by apply consistent_update_artifact.
Qed.

Lemma updates_keep_the_store_consistent_witness :
  consistent
    (update_product 1
       {| pu_name := None; pu_description := None; pu_version := None;
          pu_product_group_id := Some (Some 2) |}
       Examples.full_tree).2.
Proof.
  refine (proj1 (proj2 (updates_keep_the_store_consistent
                          Examples.full_tree _)) 1 _).
  split.
  - repeat split; apply (bool_decide_unpack _); vm_compute; exact I.
  - repeat split; apply list.Forall_forall; apply (bool_decide_unpack _);
      vm_compute; exact I.
Defined.

Lemma filter_replace {A} (column : A → Z) (rows : list A) row j :
  filter (λ r, column r = j)
         (map (λ r, if decide (column r = column row) then row else r) rows)
  = map (λ r, if decide (column r = column row) then row else r)
        (filter (λ r, column r = j) rows).
Proof.
  induction rows as [|r rows IH]; [done |].
  cbn [map]. rewrite !filter_cons, IH.
  destruct (decide (column r = column row)) as [Heq | Hne].
  - rewrite Heq. destruct (decide (column row = j)); [| done].
    cbn [map]. by rewrite decide_True.
  - destruct (decide (column r = j)); [| done].
    cbn [map]. by rewrite decide_False.
Qed.

Lemma map_fixed {A} (f : A → A) (l : list A) :
  (∀ x, x ∈ l → f x = x) → map f l = l.
Proof.
  induction l as [|x l IH]; intros Hf; [done |]. cbn [map].
  rewrite Hf by left. f_equal. apply IH. intros y Hy. apply Hf. by right.
Qed.

Lemma by_id_replace {A} (column : A → Z) (rows : list A) row old j :
  by_id column (column row) rows = Ok (Some old) →
  by_id column j
    (map (λ r, if decide (column r = column row) then row else r) rows)
  = if decide (j = column row) then Ok (Some row) else by_id column j rows.
Proof.
  intros Hfound. apply by_id_found in Hfound as (Hfilter & _ & Hold).
  unfold by_id. rewrite filter_replace.
  destruct (decide (j = column row)) as [-> | Hne].
  - rewrite Hfilter. cbn [map]. by rewrite decide_True.
  - f_equal. apply map_fixed. intros r Hr.
    apply list_elem_of_filter in Hr as [Hr _].
    rewrite decide_False; [done | congruence].
Qed.

Lemma get_or_404_replace {A} (column : A → Z) (rows : list A) row old detail :
  by_id column (column row) rows = Ok (Some old) →
  get_or_404 (by_id column (column row)
                (map (λ r, if decide (column r = column row) then row else r)
                     rows)) detail
  = Success 200 row ∧
  ∀ j, j ≠ column row →
       get_or_404 (by_id column j
                     (map (λ r, if decide (column r = column row) then row
                                else r) rows)) detail
       = get_or_404 (by_id column j rows) detail.
Proof.
  intros Hfound. split.
  - rewrite (by_id_replace _ _ _ old) by done. by rewrite decide_True.
  - intros j Hj. rewrite (by_id_replace _ _ _ old) by done.
    by rewrite decide_False.
Qed.

(** X13: an update answered with a row changes that row and nothing else: the
    row keeps its id and its creation stamp and is what a read of the id
    answers from then on; a read of any other id answers what it answered
    before; and the other four tables are as they were. *)
Theorem update_then_get db :
  (∀ id upd code r db',
     update_product_group id upd db = (Success code r, db') →
     ∃ old, get_product_group id db = Success 200 old ∧
       pg_id r = id ∧ pg_created_at r = pg_created_at old ∧
       get_product_group id db' = Success 200 r ∧
       (∀ j, j ≠ id → get_product_group j db' = get_product_group j db) ∧
       products db' = products db ∧ architectures db' = architectures db ∧
       variants db' = variants db ∧ artifacts db' = artifacts db) ∧
  (∀ id upd code r db',
     update_product id upd db = (Success code r, db') →
     ∃ old, get_product id db = Success 200 old ∧
       p_id r = id ∧ p_created_at r = p_created_at old ∧
       get_product id db' = Success 200 r ∧
       (∀ j, j ≠ id → get_product j db' = get_product j db) ∧
       product_groups db' = product_groups db ∧
       architectures db' = architectures db ∧
       variants db' = variants db ∧ artifacts db' = artifacts db) ∧
  (∀ id upd code r db',
     update_architecture id upd db = (Success code r, db') →
     ∃ old, get_architecture id db = Success 200 old ∧
       a_id r = id ∧ a_created_at r = a_created_at old ∧
       get_architecture id db' = Success 200 r ∧
       (∀ j, j ≠ id → get_architecture j db' = get_architecture j db) ∧
       product_groups db' = product_groups db ∧ products db' = products db ∧
       variants db' = variants db ∧ artifacts db' = artifacts db) ∧
  (∀ id upd code r db',
     update_variant id upd db = (Success code r, db') →
     ∃ old, get_variant id db = Success 200 old ∧
       v_id r = id ∧ v_created_at r = v_created_at old ∧
       get_variant id db' = Success 200 r ∧
       (∀ j, j ≠ id → get_variant j db' = get_variant j db) ∧
       product_groups db' = product_groups db ∧ products db' = products db ∧
       architectures db' = architectures db ∧ artifacts db' = artifacts db) ∧
  (∀ id upd code r db',
     update_artifact id upd db = (Success code r, db') →
     ∃ old, get_artifact id db = Success 200 old ∧
       art_id r = id ∧ art_created_at r = art_created_at old ∧
       get_artifact id db' = Success 200 r ∧
       (∀ j, j ≠ id → get_artifact j db' = get_artifact j db) ∧
       product_groups db' = product_groups db ∧ products db' = products db ∧
       architectures db' = architectures db ∧ variants db' = variants db).
Proof.
  split_and!; intros id upd code r db' E.
  - apply update_product_group_success in E
      as (old & name & Hfound & _ & _ & -> & ->).
    pose proof (by_id_found _ _ _ _ Hfound) as (_ & _ & Hid).
    exists old. unfold get_product_group. rewrite Hfound.
    set (row := patch_product_group upd (now db) name old).
    assert (pg_id row = id) as Hrow by done. rewrite <- Hrow in Hfound.
    destruct (get_or_404_replace pg_id (product_groups db) row old
                "Product group not found" Hfound) as [Hget Hother].
    split_and!; try done.
    + rewrite <- Hrow. exact Hget.
    + intros j Hj. apply Hother. congruence.
  - apply updated_success in E as (old & Hfound & _ & Hpatch & ->).
    pose proof (by_id_found _ _ _ _ Hfound) as (_ & _ & Hid).
    apply patch_product_inv in Hpatch as (Hrow & Hstamp & _).
    exists old. unfold get_product. rewrite Hfound.
    rewrite <- Hid, <- Hrow in Hfound.
    destruct (get_or_404_replace p_id (products db) r old
                "Product not found" Hfound) as [Hget Hother].
    assert (id = p_id r) as -> by congruence. split_and!; done.
  - apply updated_success in E as (old & Hfound & _ & Hpatch & ->).
    pose proof (by_id_found _ _ _ _ Hfound) as (_ & _ & Hid).
    apply patch_architecture_inv in Hpatch as (Hrow & Hstamp & _).
    exists old. unfold get_architecture. rewrite Hfound.
    rewrite <- Hid, <- Hrow in Hfound.
    destruct (get_or_404_replace a_id (architectures db) r old
                "Architecture not found" Hfound) as [Hget Hother].
    assert (id = a_id r) as -> by congruence. split_and!; done.
  - apply updated_success in E as (old & Hfound & _ & Hpatch & ->).
    pose proof (by_id_found _ _ _ _ Hfound) as (_ & _ & Hid).
    apply patch_variant_inv in Hpatch as (Hrow & Hstamp & _).
    exists old. unfold get_variant. rewrite Hfound.
    rewrite <- Hid, <- Hrow in Hfound.
    destruct (get_or_404_replace v_id (variants db) r old
                "Variant not found" Hfound) as [Hget Hother].
    assert (id = v_id r) as -> by congruence. split_and!; done.
  - apply updated_success in E as (old & Hfound & _ & Hpatch & ->).
    pose proof (by_id_found _ _ _ _ Hfound) as (_ & _ & Hid).
    apply patch_artifact_inv in Hpatch as (Hrow & Hstamp & _).
    exists old. unfold get_artifact. rewrite Hfound.
    rewrite <- Hid, <- Hrow in Hfound.
    destruct (get_or_404_replace art_id (artifacts db) r old
                "Artifact not found" Hfound) as [Hget Hother].
    assert (id = art_id r) as -> by congruence. split_and!; done.
Qed.

Lemma update_then_get_witness :
  ∃ r db',
    update_variant 1
      {| vu_name := Some (Some "rocky-9-x86_64-rt"); vu_description := None;
         vu_build_config := None; vu_architecture_id := None |}
      Examples.full_tree = (Success 200 r, db') ∧
    get_variant 1 db' = Success 200 r ∧
    get_variant 2 db' = get_variant 2 Examples.full_tree.
Proof.
  edestruct (proj1 (proj2 (proj2 (proj2 (update_then_get Examples.full_tree))))
               1 {| vu_name := Some (Some "rocky-9-x86_64-rt");
                    vu_description := None; vu_build_config := None;
                    vu_architecture_id := None |})
    as (old & _ & _ & _ & Hget & Hother & _); [vm_compute; reflexivity |].
  eexists _, _. split; [vm_compute; reflexivity |].
  split; [exact Hget | by apply Hother].
Defined.

(** *** The names of the groups *)

Lemma NoDup_replace {A K} (key : A → K) (column : A → Z) (rows : list A)
    old row :
  filter (λ r, column r = column row) rows = [old] →
  NoDup (map key rows) →
  key row = key old ∨ key row ∉ map key rows →
  NoDup (map key (map (λ r, if decide (column r = column row) then row else r)
                      rows)).
Proof.
  induction rows as [|r rows IH]; intros Hfilter Hnd Hkey; [done |].
  cbn [map] in *. apply list.NoDup_cons in Hnd as [Hr Hnd].
  rewrite filter_cons in Hfilter.
  destruct (decide (column r = column row)) as [Heq | Hne].
  - injection Hfilter as -> Hrest.
    rewrite map_fixed.
    + apply list.NoDup_cons. split; [| done].
      destruct Hkey as [-> | Hkey]; [done |].
      intros Hin. apply Hkey. by right.
    + intros x Hx. rewrite decide_False; [done |].
      intros Hx'. apply (proj1 (filter_none _ _) Hrest x Hx Hx').
  - assert (old ∈ rows) as Hold.
    { assert (old ∈ filter (λ r0, column r0 = column row) rows) as Hin
        by (rewrite Hfilter; by left).
      by apply list_elem_of_filter in Hin as [_ ?]. }
    apply list.NoDup_cons. split.
    + intros Hin. apply list_elem_of_fmap in Hin as (x & Hx & Hin).
      apply elem_of_replace in Hin as [-> | Hin].
      * destruct Hkey as [Hkey | Hkey].
        -- apply Hr. rewrite Hx, Hkey. apply list_elem_of_fmap. by exists old.
        -- apply Hkey. rewrite <- Hx. by left.
      * apply Hr. rewrite Hx. apply list_elem_of_fmap. by exists x.
    + apply IH; [done | done |].
      destruct Hkey as [Hkey | Hkey]; [by left | right].
      intros Hin. apply Hkey. by right.
Qed.

Lemma scalar_none {A} (rows : list A) :
  scalar_one_or_none rows = Ok None → rows = [].
Proof. by destruct rows as [|r [|r' rows]]. Qed.

(** X14: the three handlers that write groups keep their names distinct, so the
    unique constraint on the name is never what fails a commit. *)
Theorem product_group_names_stay_unique db :
  NoDup (map pg_name (product_groups db)) →
  (∀ x, NoDup (map pg_name (product_groups (create_product_group x db).2))) ∧
  (∀ id upd,
     NoDup (map pg_name (product_groups (update_product_group id upd db).2))) ∧
  (∀ id, NoDup (map pg_name (product_groups (delete_product_group id db).2))).
Proof.
  intros Hnd. split_and!.
  - intros x. unfold create_product_group.
    destruct (scalar_one_or_none _) as [[p |] | e] eqn:Hfound; try done.
    apply scalar_none in Hfound. cbn.
    apply NoDup_snoc_fresh; [done |]. by apply filter_none_key.
  - intros id upd.
    destruct (update_product_group_cases id upd db) as [-> | (r & E)]; [done |].
    rewrite E. apply update_product_group_success in E
      as (old & name & Hfound & Hconflict & Hname & -> & _).
    apply by_id_found in Hfound as (Hfilter & _ & Hid).
    cbn [snd replace_product_group product_groups].
    apply (NoDup_replace pg_name pg_id _ old);
      [cbn [pg_id patch_product_group]; by rewrite Hid | done |].
    cbn [pg_name patch_product_group].
    unfold name_conflict in Hconflict.
    destruct (pgu_name upd) as [new |]; cbn in Hname; [| left; congruence].
    subst new. destruct (decide (Some name ≠ Some (pg_name old))) as [_ | Heq].
    + right. apply scalar_none in Hconflict.
      intros Hin. apply list_elem_of_fmap in Hin as (g & Hg & Hin).
      apply (proj1 (filter_none _ _) Hconflict g Hin). by rewrite Hg.
    + left. apply dec_stable in Heq. congruence.
  - intros id. unfold delete_product_group.
    destruct (deleted_cases (by_id pg_id id (product_groups db))
                "Product group not found" "Product group deleted successfully"
                (λ row, delete_product_groups (λ r, pg_id r = pg_id row) db) db)
      as [-> | (row & _ & ->)]; [done |].
    cbn. by apply NoDup_map_filter.
Qed.

Lemma product_group_names_stay_unique_witness :
  NoDup (map pg_name
           (product_groups
              (update_product_group 2
                 {| pgu_name := Some (Some "Alma"); pgu_description := None |}
                 Examples.full_tree).2)).
Proof.
  refine (proj1 (proj2 (product_group_names_stay_unique
                          Examples.full_tree _)) 2 _).
  apply (bool_decide_unpack _). vm_compute. exact I.
Defined.

(** *** Listings *)


















(** *** The counts of the statistics *)

Lemma counts_total_insert `{Countable K} (m : gmap K nat) k v :
  (counts_total (<[k := v]> m) + default 0 (m !! k) = v + counts_total m)%nat.
Proof.
  unfold counts_total.
  destruct (m !! k) as [n |] eqn:Hk; cbn [default from_option id].
  - rewrite <- (insert_delete_eq m k v).
    rewrite map_fold_insert_L; [| intros; lia | apply lookup_delete_eq].
    rewrite <- (insert_delete_id m k n Hk) at 2.
    rewrite map_fold_insert_L; [| intros; lia | apply lookup_delete_eq].
    lia.
  - rewrite map_fold_insert_L; [lia | intros; lia | done].
Qed.

Lemma counts_total_count_by `{Countable K} (column : Artifact → K) rows :
  counts_total (count_by column rows) = length rows.
Proof.
  induction rows as [|r rows IH]; [done |].
  cbn [count_by foldr length]. fold (count_by column rows).
  pose proof (counts_total_insert (count_by column rows) (column r)
                (S (default 0%nat (count_by column rows !! column r)))).
  lia.
Qed.

(** X17: the counts by type add up to the number of artifacts, and so do the
    counts by status: every artifact is counted once in each mapping. *)
Theorem stats_count_every_artifact_once db :
  counts_total (by_type (get_artifact_stats db)) = length (artifacts db) ∧
  counts_total (by_status (get_artifact_stats db)) = length (artifacts db).
Proof. split; apply counts_total_count_by. Qed.

(** *** Create, then delete *)

Lemma filter_all {A} (P : A → Prop) `{∀ x, Decision (P x)} (l : list A) :
  (∀ x, x ∈ l → P x) → filter P l = l.
Proof.
  induction l as [|x l IH]; intros HP; [done |].
  rewrite filter_cons, decide_True by (apply HP; left).
  f_equal. apply IH. intros y Hy. apply HP. by right.
Qed.

Lemma filter_snoc_fresh {A} (column : A → Z) (rows : list A) row :
  column row ∉ map column rows →
  filter (λ r, ¬ column r = column row) (rows ++ [row]) = rows ∧
  map column (filter (λ r, column r = column row) (rows ++ [row]))
  = [column row].
Proof.
  intros Hfresh.
  assert (∀ r, r ∈ rows → column r ≠ column row) as Hne.
  { intros r Hr Heq. apply Hfresh. rewrite <- Heq.
    apply list_elem_of_fmap. by exists r. }
  rewrite !list.filter_app, !filter_cons, !filter_nil.
  rewrite decide_False by (intros Hn; by apply Hn).
  rewrite decide_True by done. split.
  - rewrite app_nil_r. by apply filter_all.
  - rewrite (proj2 (filter_none (λ r, column r = column row) rows)); [done |].
    intros r Hr. by apply Hne.
Qed.

Lemma no_child_of_fresh {C} (fk : C → Z) (ids : list Z) (children : list C)
    new :
  new ∉ ids → (∀ c, c ∈ children → fk c ∈ ids) →
  filter (λ c, ¬ fk c ∈ [new]) children = children ∧
  filter (λ c, fk c ∈ [new]) children = [].
Proof.
  intros Hfresh Href.
  assert (∀ c, c ∈ children → fk c ∉ [new]) as Hne.
  { intros c Hc Hin. apply list_elem_of_singleton in Hin.
    apply Hfresh. rewrite <- Hin. by apply Href. }
  split; [by apply filter_all |]. by apply filter_none.
Qed.

Lemma no_child_of_none {C} (fk : C → Z) (children : list C) :
  filter (λ c, ¬ fk c ∈ []) children = children ∧
  filter (λ c, fk c ∈ []) children = [].
Proof.
  split.
  - apply filter_all. intros c _ Hin. by apply elem_of_nil in Hin.
  - apply filter_none. intros c _ Hin. by apply elem_of_nil in Hin.
Qed.

(** X18: a row just created and deleted again leaves the store as it was before
    the create, provided no foreign key was dangling: the new id is above
    every id in use, so the cascade finds nothing below the row. *)
Theorem create_then_delete_restores_the_store db :
  references_hold db →
  (∀ x r db',
     create_product_group x db = (Success 201 r, db') →
     delete_product_group (pg_id r) db'
     = (Success 200 "Product group deleted successfully", db)) ∧
  (∀ x r db',
     create_product x db = (Success 201 r, db') →
     delete_product (p_id r) db'
     = (Success 200 "Product deleted successfully", db)) ∧
  (∀ x r db',
     create_architecture x db = (Success 201 r, db') →
     delete_architecture (a_id r) db'
     = (Success 200 "Architecture deleted successfully", db)) ∧
  (∀ x r db',
     create_variant x db = (Success 201 r, db') →
     delete_variant (v_id r) db'
     = (Success 200 "Variant deleted successfully", db)) ∧
  (∀ x r db',
     create_artifact x db = (Success 201 r, db') →
     delete_artifact (art_id r) db'
     = (Success 200 "Artifact deleted successfully", db)).
Proof.
  intros (Rp & Ra & Rv & Rx). split_and!; intros x r db' E.
  - unfold create_product_group in E.
    destruct (scalar_one_or_none _) as [[p |] | e]; try done.
    injection E as <- <-.
    pose proof (next_id_not_used (map pg_id (product_groups db))) as Hfresh.
    unfold delete_product_group, deleted.
    cbn [add_product_group fst snd product_groups pg_id].
    set (row := {| pg_id := next_id (map pg_id (product_groups db)) |}).
    rewrite (by_id_snoc pg_id (pg_id row) _ row) by done.
    rewrite decide_True by done. f_equal.
    destruct (filter_snoc_fresh pg_id (product_groups db) row Hfresh)
      as [Hkeep Hgone].
    unfold delete_product_groups, delete_products, delete_architectures,
      delete_variants, delete_artifacts.
    cbn [product_groups products architectures variants artifacts now].
    rewrite Hkeep, Hgone.
    destruct (no_child_of_fresh p_product_group_id _ (products db) (pg_id row)
                Hfresh Rp) as [-> ->].
    cbn [map].
    destruct (no_child_of_none a_product_id (architectures db)) as [-> ->].
    cbn [map].
    destruct (no_child_of_none v_architecture_id (variants db)) as [-> ->].
    cbn [map].
    destruct (no_child_of_none art_variant_id (artifacts db)) as [-> _].
    by destruct db.
  - apply with_parent_created in E as (-> & -> & _).
    pose proof (next_id_not_used (map p_id (products db))) as Hfresh.
    unfold delete_product, deleted.
    cbn [add_product fst snd products p_id].
    set (row := {| p_id := next_id (map p_id (products db)) |}).
    rewrite (by_id_snoc p_id (p_id row) _ row) by done.
    rewrite decide_True by done. f_equal.
    destruct (filter_snoc_fresh p_id (products db) row Hfresh)
      as [Hkeep Hgone].
    unfold delete_products, delete_architectures, delete_variants,
      delete_artifacts.
    cbn [product_groups products architectures variants artifacts now].
    rewrite Hkeep, Hgone.
    destruct (no_child_of_fresh a_product_id _ (architectures db) (p_id row)
                Hfresh Ra) as [-> ->].
    cbn [map].
    destruct (no_child_of_none v_architecture_id (variants db)) as [-> ->].
    cbn [map].
    destruct (no_child_of_none art_variant_id (artifacts db)) as [-> _].
    by destruct db.
  - apply with_parent_created in E as (-> & -> & _).
    pose proof (next_id_not_used (map a_id (architectures db))) as Hfresh.
    unfold delete_architecture, deleted.
    cbn [add_architecture fst snd architectures a_id].
    set (row := {| a_id := next_id (map a_id (architectures db)) |}).
    rewrite (by_id_snoc a_id (a_id row) _ row) by done.
    rewrite decide_True by done. f_equal.
    destruct (filter_snoc_fresh a_id (architectures db) row Hfresh)
      as [Hkeep Hgone].
    unfold delete_architectures, delete_variants, delete_artifacts.
    cbn [product_groups products architectures variants artifacts now].
    rewrite Hkeep, Hgone.
    destruct (no_child_of_fresh v_architecture_id _ (variants db) (a_id row)
                Hfresh Rv) as [-> ->].
    cbn [map].
    destruct (no_child_of_none art_variant_id (artifacts db)) as [-> _].
    by destruct db.
  - apply with_parent_created in E as (-> & -> & _).
    pose proof (next_id_not_used (map v_id (variants db))) as Hfresh.
    unfold delete_variant, deleted.
    cbn [add_variant fst snd variants v_id].
    set (row := {| v_id := next_id (map v_id (variants db)) |}).
    rewrite (by_id_snoc v_id (v_id row) _ row) by done.
    rewrite decide_True by done. f_equal.
    destruct (filter_snoc_fresh v_id (variants db) row Hfresh)
      as [Hkeep Hgone].
    unfold delete_variants, delete_artifacts.
    cbn [product_groups products architectures variants artifacts now].
    rewrite Hkeep, Hgone.
    destruct (no_child_of_fresh art_variant_id _ (artifacts db) (v_id row)
                Hfresh Rx) as [-> _].
    by destruct db.
  - apply with_parent_created in E as (-> & -> & _).
    pose proof (next_id_not_used (map art_id (artifacts db))) as Hfresh.
    unfold delete_artifact, deleted.
    cbn [add_artifact fst snd artifacts art_id].
    set (row := {| art_id := next_id (map art_id (artifacts db)) |}).
    rewrite (by_id_snoc art_id (art_id row) _ row) by done.
    rewrite decide_True by done. f_equal.
    destruct (filter_snoc_fresh art_id (artifacts db) row Hfresh)
      as [Hkeep _].
    unfold delete_artifacts.
    cbn [product_groups products architectures variants artifacts now].
    rewrite Hkeep.
    by destruct db.
Qed.

Lemma create_then_delete_restores_the_store_witness :
  ∃ r db',
    create_product
      {| pc_name := "rocky-10"; pc_description := None;
         pc_version := None; pc_product_group_id := 1 |}
      Examples.full_tree = (Success 201 r, db') ∧
    delete_product (p_id r) db'
    = (Success 200 "Product deleted successfully", Examples.full_tree).
Proof.
  eexists _, _. split; [vm_compute; reflexivity |].
  refine (proj1 (proj2 (create_then_delete_restores_the_store
                          Examples.full_tree _))
            {| pc_name := "rocky-10"; pc_description := None;
               pc_version := None; pc_product_group_id := 1 |} _ _ _).
  - repeat split; apply list.Forall_forall; apply (bool_decide_unpack _);
      vm_compute; exact I.
  - vm_compute. reflexivity.
Defined.
